(** * Capture session of traffic2api: [captureWithHar]

    A shallow embedding of [capture/src/har-capture.ts].  The function drives
    a browser through Playwright, lets the recording context flush a HAR file,
    reads the file back, deletes it and derives a summary.

    Everything the function does to the outside - Playwright, the clock, the
    file system, the console - is a call logged on a [Host]; what the outside
    answers is fixed by a [World].  Every awaited call may reject, and a
    rejection is the [Throw] outcome of the monad [M]; [try]/[catch] is
    [try_catch].  The [Host] also keeps the files on disk, whether the
    browser runs, and which HAR files each open context will write when it
    is closed. *)

From stdpp Require Import gmap strings list fin_maps pretty.
From Stdlib Require Import Ascii.


(** ** The trace document (HAR), as far as the function looks into it *)

(** A parsed trace has the shape of the HAR documents the recorder writes.
    The fields below are the ones the source reads; each one it tests with
    [x && x.f] before use is optional here. *)
Module HAR.
Record Cookie := { name : string; value : string }.
Record Message := { cookies : option (list Cookie) }.
Record Entry := { request : option Message; response : option Message }.
Record Log := { entries : option (list Entry) }.
Record Doc := { log : option Log }.
End HAR.

(** ** Interfaces of the source *)

Record CrawlOptions := { maxPages : nat; discoverOpenApi : bool }.

Record CaptureOptions := {
  waitMs : option Z;
  headless : option bool;
  crawl : option bool;
  crawlOptions : option CrawlOptions;
  userDataDir : option string
}.

Record CrawlResult := { pagesCrawled : nat; openApiSource : option string }.

Record CaptureResult := {
  har : HAR.Doc;
  requestCount : nat;
  method : string;
  crawlResult : option CrawlResult;
  cookies : gmap string string
}.

(** ** The outside world *)

(** The calls the function awaits.  A browser context is known by the
    destination its recorder was created with; the two contexts of one
    session have different ones. *)
Inductive call :=
  | Launch (headless : option bool)
  | NewContext (recordHar : string) (userAgent : option string)
  | RouteFromHAR (context : string) (har : string)
  | NewPage (context : string)
  | Goto (i : nat) (url : string)
  | WaitForTimeout (i : nat) (ms : Z)
  | CloseContext (context : string)
  | CloseBrowser
  | ReadFile (path : string)
  | Unlink (path : string).

Inductive event :=
  | Called (c : call) (ok : bool)
  | Now (t : Z)
  | ConsoleLog (url : string)
  | ConsoleError (url : string).

Inductive error :=
  | Rejected (c : call)
  | ENOENT (path : string)
  | SyntaxError
  | TypeError.

(** [responds] says whether an awaited call resolves ([true]) or rejects;
    [Goto] and [WaitForTimeout] carry the position of the target in the list,
    so that the same address may load once and fail the next time.  [clock k]
    is the k-th reading of [Date.now()].  [recorded p] is the text the
    recorder flushes to [p] when its context closes, and [JSON_parse] is the
    runtime's parser ([None]: it throws). *)
Record World := {
  responds : call → bool;
  clock : nat → Z;
  recorded : string → string;
  JSON_parse : string → option HAR.Doc
}.

Record Host := {
  calls : list event;
  files : gmap string string;
  browser_running : bool;
  recorders : gmap string (list string);
  ticks : nat
}.

Definition boot (disk : gmap string string) : Host :=
  {| calls := []; files := disk; browser_running := false;
     recorders := ∅; ticks := 0 |}.

Inductive outcome (A : Type) :=
  | Return (a : A)
  | Throw (e : error).
Arguments Return {A} a.
Arguments Throw {A} e.

Definition M (A : Type) : Type := Host → outcome A * Host.

#[global] Instance M_ret : MRet M := λ A a σ, (Return a, σ).
#[global] Instance M_bind : MBind M := λ A B f m σ,
  match m σ with
  | (Return a, σ') => f a σ'
  | (Throw e, σ') => (Throw e, σ')
  end.

Definition throw {A} (e : error) : M A := λ σ, (Throw e, σ).

Definition try_catch {A} (body : M A) (handler : error → M A) : M A := λ σ,
  match body σ with
  | (Return a, σ') => (Return a, σ')
  | (Throw e, σ') => handler e σ'
  end.

Definition note (e : event) (σ : Host) : Host :=
  {| calls := calls σ ++ [e]; files := files σ;
     browser_running := browser_running σ; recorders := recorders σ;
     ticks := ticks σ |}.

Definition set_running (b : bool) (σ : Host) : Host :=
  {| calls := calls σ; files := files σ; browser_running := b;
     recorders := recorders σ; ticks := ticks σ |}.

Definition set_recorders (r : gmap string (list string)) (σ : Host) : Host :=
  {| calls := calls σ; files := files σ;
     browser_running := browser_running σ; recorders := r;
     ticks := ticks σ |}.

Definition set_files (f : gmap string string) (σ : Host) : Host :=
  {| calls := calls σ; files := f; browser_running := browser_running σ;
     recorders := recorders σ; ticks := ticks σ |}.

Definition userAgent : string :=
  "Mozilla/5.0 (Macintosh; Intel Mac OS X 10_15_7) AppleWebKit/537.36 (KHTML, like Gecko) Chrome/120.0.0.0 Safari/537.36".

(** JavaScript's [if (n)] on an optional number. *)
Definition truthy (n : option Z) : option Z :=
  match n with
  | Some ms => if (ms =? 0)%Z then None else Some ms
  | None => None
  end.

Section Session.
Context (W : World).

(** An awaited call: logged with its answer, an exception when rejected. *)
Definition invoke (c : call) : M unit := λ σ,
  if responds W c then (Return tt, note (Called c true) σ)
  else (Throw (Rejected c), note (Called c false) σ).

Definition effect (f : Host → Host) : M unit := λ σ, (Return tt, f σ).

Definition Date_now : M Z := λ σ,
  let t := clock W (ticks σ) in
  (Return t,
   {| calls := calls σ ++ [Now t]; files := files σ;
      browser_running := browser_running σ; recorders := recorders σ;
      ticks := S (ticks σ) |}).

Definition console_log (url : string) : M unit := effect (note (ConsoleLog url)).
Definition console_error (url : string) : M unit := effect (note (ConsoleError url)).

Definition launch (h : option bool) : M unit :=
  invoke (Launch h);; effect (set_running true).

(** [browser.newContext({recordHar: {path}, userAgent})] *)
Definition newContext (path : string) (ua : option string) : M string :=
  invoke (NewContext path ua);;
  effect (λ σ, set_recorders (<[path := [path]]> (recorders σ)) σ);;
  mret path.

(** [context.routeFromHAR(har, {update: true, ...})]: in update mode the
    context records into [har] as well, written when the context closes. *)
Definition routeFromHAR (context har : string) : M unit :=
  invoke (RouteFromHAR context har);;
  effect (λ σ, set_recorders (alter (λ l, l ++ [har]) context (recorders σ)) σ).

Definition flush (disk : gmap string string) (paths : list string)
    : gmap string string :=
  foldl (λ disk p, <[p := recorded W p]> disk) disk paths.

(** [context.close()]: every recorder of the context is saved. *)
Definition close_context (context : string) : M unit :=
  invoke (CloseContext context);;
  effect (λ σ, set_recorders (delete context (recorders σ))
                 (set_files (flush (files σ) (default [] (recorders σ !! context))) σ)).

Definition close_browser : M unit :=
  invoke CloseBrowser;; effect (set_running false).

Definition newPage (context : string) : M unit := invoke (NewPage context).
Definition goto (i : nat) (url : string) : M unit := invoke (Goto i url).
Definition waitForTimeout (i : nat) (ms : Z) : M unit := invoke (WaitForTimeout i ms).

Definition readFile (path : string) : M string := λ σ,
  match files σ !! path with
  | Some text =>
      if responds W (ReadFile path)
      then (Return text, note (Called (ReadFile path) true) σ)
      else (Throw (Rejected (ReadFile path)), note (Called (ReadFile path) false) σ)
  | None => (Throw (ENOENT path), note (Called (ReadFile path) false) σ)
  end.

Definition unlink (path : string) : M unit := λ σ,
  match files σ !! path with
  | Some _ =>
      if responds W (Unlink path)
      then (Return tt, set_files (delete path (files σ)) (note (Called (Unlink path) true) σ))
      else (Throw (Rejected (Unlink path)), note (Called (Unlink path) false) σ)
  | None => (Throw (ENOENT path), note (Called (Unlink path) false) σ)
  end.

Definition parse (text : string) : M HAR.Doc :=
  match JSON_parse W text with
  | Some doc => mret doc
  | None => throw SyntaxError
  end.

(** ** Cookie aggregation (lines 98-113) *)

(** [cookies[key] = value] on the plain object [cookies = {}] (lines 99,
    104 and 109); the map holds the own properties of the object.  For
    every key but [__proto__] the assignment defines or overwrites the own
    property of that name (the properties [Object.prototype] has under
    other names are writable data properties, which an assignment shadows).
    [__proto__] is the accessor inherited from [Object.prototype]: its
    setter ignores a value that is neither an object nor [null], so
    assigning a string leaves the object as it was. *)
Definition assign (cookies : gmap string string) (key value : string)
    : gmap string string :=
  if String.eqb key "__proto__" then cookies else <[key := value]> cookies.

Definition absorb (cookies : gmap string string) (cs : list HAR.Cookie)
    : gmap string string :=
  foldl (λ m cookie, assign m (HAR.name cookie) (HAR.value cookie)) cookies cs.

Definition absorb_side (cookies : gmap string string) (side : option HAR.Message)
    : gmap string string :=
  match side with
  | Some msg =>
      match HAR.cookies msg with
      | Some cs => absorb cookies cs
      | None => cookies
      end
  | None => cookies
  end.

Definition absorb_entry (cookies : gmap string string) (entry : HAR.Entry)
    : gmap string string :=
  absorb_side (absorb_side cookies (HAR.request entry)) (HAR.response entry).

Definition merge_trace (cookies : gmap string string) (harJson : HAR.Doc)
    : gmap string string :=
  match HAR.log harJson with
  | Some l =>
      match HAR.entries l with
      | Some es => foldl absorb_entry cookies es
      | None => cookies
      end
  | None => cookies
  end.

(** [harJson.log.entries.length] (line 117), not guarded. *)
Definition entries_length (harJson : HAR.Doc) : M nat :=
  match HAR.log harJson with
  | Some l =>
      match HAR.entries l with
      | Some es => mret (length es)
      | None => throw TypeError
      end
  | None => throw TypeError
  end.

(** ** The visiting loop (lines 75-86) *)

Definition visit (options : CaptureOptions) (i : nat) (url : string)
    (pagesVisited : nat) : M nat :=
  try_catch
    (console_log url;;
     goto i url;;
     match truthy (waitMs options) with
     | Some ms => waitForTimeout i ms
     | None => mret tt
     end;;
     mret (S pagesVisited))
    (λ _, console_error url;; mret pagesVisited).

Fixpoint visit_all (options : CaptureOptions) (urls : list string) (i : nat)
    (pagesVisited : nat) : M nat :=
  match urls with
  | [] => mret pagesVisited
  | url :: rest =>
      visited ← visit options i url pagesVisited;
      visit_all options rest (S i) visited
  end.

(** ** [captureWithHar] *)

Definition scratch_path : string := "temp_har.har".

Definition tempHarPath (t : Z) : string := "temp_capture_" +:+ pretty t +:+ ".har".

(** Lines 30-58: a context opened on a fixed destination, switched to
    update a second HAR and closed again; whatever it throws is ignored. *)
Definition first_attempt : M unit :=
  try_catch
    (context ← newContext scratch_path None;
     t ← Date_now;
     routeFromHAR context ("temp_" +:+ pretty t +:+ ".har");;
     close_context context)
    (λ _, mret tt).

Definition captureWithHar (urls : list string) (options : CaptureOptions)
    : M CaptureResult :=
  launch (headless options);;
  first_attempt;;
  t ← Date_now;
  context ← newContext (tempHarPath t) (Some userAgent);
  newPage context;;
  pagesVisited ← visit_all options urls 0 0;
  close_context context;;
  close_browser;;
  harContent ← readFile (tempHarPath t);
  unlink (tempHarPath t);;
  harJson ← parse harContent;
  let cookies := merge_trace ∅ harJson in
  n ← entries_length harJson;
  mret {| har := harJson;
          requestCount := n;
          method := "playwright-har";
          crawlResult := Some {| pagesCrawled := pagesVisited; openApiSource := None |};
          cookies := cookies |}.

(** One session started on a disk. *)
Definition session (disk : gmap string string) (urls : list string)
    (options : CaptureOptions) : outcome CaptureResult * Host :=
  captureWithHar urls options (boot disk).
End Session.


(** ** Reading the call log *)

#[global] Instance call_eq_dec : EqDecision call.
Proof. solve_decision. Defined.

#[global] Instance event_eq_dec : EqDecision event.
Proof. solve_decision. Defined.

(** [extend evs σ]: the host after [evs] more events and no other change. *)
Definition extend (evs : list event) (σ : Host) : Host :=
  {| calls := calls σ ++ evs; files := files σ;
     browser_running := browser_running σ; recorders := recorders σ;
     ticks := ticks σ |}.

(** Events of the guarded body of the loop. *)
Definition page_event (e : event) : bool :=
  match e with
  | Called (Goto _ _) _ | Called (WaitForTimeout _ _) _
  | ConsoleLog _ | ConsoleError _ => true
  | _ => false
  end.

(** Events of [first_attempt]. *)
Definition scratch_event (e : event) : bool :=
  match e with
  | Called (NewContext p None) _ => String.eqb p scratch_path
  | Called (RouteFromHAR c _) _ => String.eqb c scratch_path
  | Called (CloseContext c) _ => String.eqb c scratch_path
  | Now _ => true
  | _ => false
  end.

(** The addresses given to [page.goto], in the order of the calls. *)
Definition goto_target (e : event) : option string :=
  match e with
  | Called (Goto _ url) _ => Some url
  | _ => None
  end.

Definition gotos (log : list event) : list string := omap goto_target log.

(** The pauses asked of [page.waitForTimeout]. *)
Definition pause_length (e : event) : option Z :=
  match e with
  | Called (WaitForTimeout _ ms) _ => Some ms
  | _ => None
  end.

Definition pauses (log : list event) : list Z := omap pause_length log.

(** A target fails to load when a call of the guarded body rejects,
    [page.goto] or the pause after it: the handler reports either as
    [Failed to load url]. *)
Definition failed_load (e : event) : bool :=
  match e with
  | Called (Goto _ _) false | Called (WaitForTimeout _ _) false => true
  | _ => false
  end.

Fixpoint failed_targets (log : list event) : nat :=
  match log with
  | [] => 0
  | e :: rest => (if failed_load e then 1 else 0) + failed_targets rest
  end.

(** The two ways a target fails to load, counted apart: [page.goto]
    rejected, or the pause after it rejected. *)
Fixpoint goto_failures (log : list event) : nat :=
  match log with
  | [] => 0
  | Called (Goto _ _) false :: rest => S (goto_failures rest)
  | _ :: rest => goto_failures rest
  end.

Fixpoint pause_failures (log : list event) : nat :=
  match log with
  | [] => 0
  | Called (WaitForTimeout _ _) false :: rest => S (pause_failures rest)
  | _ :: rest => pause_failures rest
  end.

(** The destinations recording contexts were asked to record to. *)
Definition recording_destination (e : event) : option string :=
  match e with
  | Called (NewContext p _) _ => Some p
  | _ => None
  end.

Definition destinations (log : list event) : list string :=
  omap recording_destination log.

(** Acquisition and release of the browser and of the capturing context
    (the context of [first_attempt] left aside). *)
Definition lifecycle_call (e : event) : option event :=
  match e with
  | Called (Launch _) _ | Called (NewPage _) _ | Called CloseBrowser _ => Some e
  | Called (NewContext p _) _ | Called (CloseContext p) _ =>
      if String.eqb p scratch_path then None else Some e
  | _ => None
  end.

Definition lifecycle (log : list event) : list event := omap lifecycle_call log.

(** What the loop leaves behind when it starts with count [n] and ends with
    [n']: page events only, one [goto] per target in list order, every pause
    of the configured length, and a count that misses one for each target
    that failed to load. *)
Definition visited (options : CaptureOptions) (urls : list string) (n n' : nat)
    (evs : list event) : Prop :=
  forallb page_event evs = true
  ∧ gotos evs = urls
  ∧ n' + failed_targets evs = n + length urls
  ∧ ∀ ms, ms ∈ pauses evs → truthy (waitMs options) = Some ms.

(** [chain ans cs]: the calls [cs] made one after the other until one
    rejects. *)
Fixpoint chain (ans : call → bool) (cs : list call) : list event :=
  match cs with
  | [] => []
  | c :: rest => if ans c then Called c true :: chain ans rest else [Called c false]
  end.

(** ** What decides a session *)

(** [Date.now()] is read once in [first_attempt] when its context opens;
    the reading that names the capture destination is the next one. *)
Definition scratch_ticks (W : World) : nat :=
  if responds W (NewContext scratch_path None) then 1 else 0.

Definition capture_time (W : World) : Z := clock W (scratch_ticks W).

Definition destination (W : World) : string := tempHarPath (capture_time W).

(** The calls of [captureWithHar] outside any [try]. *)
Definition unguarded_calls (W : World) (options : CaptureOptions) : list call :=
  [ Launch (headless options);
    NewContext (destination W) (Some userAgent);
    NewPage (destination W);
    CloseContext (destination W);
    CloseBrowser;
    ReadFile (destination W);
    Unlink (destination W) ].

(** The calls that acquire and release the browser and the capturing
    context, in the order of the source. *)
Definition lifecycle_calls (W : World) (options : CaptureOptions) : list call :=
  [ Launch (headless options);
    NewContext (destination W) (Some userAgent);
    NewPage (destination W);
    CloseContext (destination W);
    CloseBrowser ].

(** The exchange records of a trace document. *)
Definition exchange_records (doc : HAR.Doc) : list HAR.Entry :=
  match HAR.log doc with
  | Some l => default [] (HAR.entries l)
  | None => []
  end.

(** The records of the text the recorder flushes to the destination:
    [None] when the text does not parse or has no [log.entries]. *)
Definition flushed_records (W : World) : option (list HAR.Entry) :=
  doc ← JSON_parse W (recorded W (destination W));
  l ← HAR.log doc;
  HAR.entries l.

Definition unguarded_ok (W : World) (options : CaptureOptions) : bool :=
  forallb (responds W) (unguarded_calls W options)
  && bool_decide (is_Some (flushed_records W)).

(** ** Cookie aggregation as the specification words it *)

Definition side_cookies (side : option HAR.Message) : list HAR.Cookie :=
  match side with
  | Some msg => default [] (HAR.cookies msg)
  | None => []
  end.

(** Every cookie of the trace: records in trace order, and within a record
    the request side before the response side. *)
Definition cookie_sequence (doc : HAR.Doc) : list HAR.Cookie :=
  entry ← exchange_records doc;
  side_cookies (HAR.request entry) ++ side_cookies (HAR.response entry).

(** ** Running a computation towards a postcondition

    [wp m σ Q]: the outcome and the host that [m] leaves when started on [σ]
    satisfy [Q]. *)
Definition wp {A} (m : M A) (σ : Host) (Q : outcome A → Host → Prop) : Prop :=
  Q (m σ).1 (m σ).2.

(** ** Sample worlds *)

Definition cookie (n v : string) : HAR.Cookie := {| HAR.name := n; HAR.value := v |}.

Definition message (cs : list HAR.Cookie) : HAR.Message := {| HAR.cookies := Some cs |}.

Definition trace (es : list HAR.Entry) : HAR.Doc :=
  {| HAR.log := Some {| HAR.entries := Some es |} |}.

(** Two records: the first sends [sid=old] and is answered [sid=new], the
    second sends [theme=dark] and has no response. *)
Definition sample_trace : HAR.Doc :=
  trace [ {| HAR.request := Some (message [cookie "sid" "old"]);
             HAR.response := Some (message [cookie "sid" "new"]) |};
          {| HAR.request := Some (message [cookie "theme" "dark"]);
             HAR.response := None |} ].

(** A world that answers calls by [ans], starts its clock at [t] and whose
    recorder text always parses to [doc]. *)
Definition world (ans : call → bool) (t : Z) (doc : HAR.Doc) : World :=
  {| responds := ans;
     clock := λ k, (t + Z.of_nat k)%Z;
     recorded := λ p, "HAR of " +:+ p;
     JSON_parse := λ _, Some doc |}.

Definition calm : World := world (λ _, true) 1700000000000 sample_trace.

Definition later : World := world (λ _, true) 1700000000999 sample_trace.

Definition second_unreachable : World :=
  world (λ c, match c with Goto 1 _ => false | _ => true end)
    1700000000000 sample_trace.

Definition all_unreachable : World :=
  world (λ c, match c with Goto _ _ => false | _ => true end)
    1700000000000 (trace []).

Definition context_refused : World :=
  world (λ c, match c with NewContext _ (Some _) => false | _ => true end)
    1700000000000 sample_trace.

Definition browser_close_fails : World :=
  world (λ c, match c with CloseBrowser => false | _ => true end)
    1700000000000 sample_trace.

Definition unlink_fails : World :=
  world (λ c, match c with Unlink _ => false | _ => true end)
    1700000000000 sample_trace.

Definition pause_rejected : World :=
  world (λ c, match c with WaitForTimeout _ _ => false | _ => true end)
    1700000000000 sample_trace.

(** One record: the request sends [__proto__=early], the response sets
    [__proto__=late] and [sid=abc]. *)
Definition proto_trace : HAR.Doc :=
  trace [ {| HAR.request := Some (message [cookie "__proto__" "early"]);
             HAR.response := Some (message [cookie "__proto__" "late";
                                            cookie "sid" "abc"]) |} ].

Definition proto_world : World := world (λ _, true) 1700000000000 proto_trace.

Definition sample_options : CaptureOptions :=
  {| waitMs := Some 0%Z; headless := Some true; crawl := None;
     crawlOptions := None; userDataDir := None |}.

Definition with_waitMs (w : option Z) (options : CaptureOptions) : CaptureOptions :=
  {| waitMs := w; headless := headless options; crawl := crawl options;
     crawlOptions := crawlOptions options; userDataDir := userDataDir options |}.

Definition patient_options : CaptureOptions := with_waitMs (Some 1000%Z) sample_options.

Definition two_targets : list string :=
  ["https://example.com"; "https://unreachable.invalid"].

(** The second HAR of [first_attempt]: [temp_<t>.har], [t] being the first
    clock reading of the session. *)
Definition update_path (W : World) : string :=
  "temp_" +:+ pretty (clock W 0) +:+ ".har".

(** What the console shows: the targets announced and those reported as
    failed. *)
Definition announced_target (e : event) : option string :=
  match e with ConsoleLog url => Some url | _ => None end.

Definition announced (log : list event) : list string := omap announced_target log.

Definition reported_target (e : event) : option string :=
  match e with ConsoleError url => Some url | _ => None end.

Definition reported (log : list event) : list string := omap reported_target log.

(** The transcript of the loop beyond [visited]. *)
Definition transcript (options : CaptureOptions) (urls : list string)
    (evs : list event) : Prop :=
  announced evs = urls
  ∧ length (reported evs) = failed_targets evs
  ∧ reported evs `sublist_of` urls
  ∧ (is_Some (truthy (waitMs options)) →
     length (pauses evs) + goto_failures evs = length urls).


(** ** The command line ([playwright-capture.ts]) *)

(** [s.startsWith(p)] *)
Definition startsWith (s p : string) : bool := String.prefix p s.

(** [s.indexOf(c)] for a one-character [c]; [None] is [-1]. *)
Fixpoint indexOf (c : Ascii.ascii) (s : string) : option nat :=
  match s with
  | EmptyString => None
  | String a rest => if Ascii.eqb a c then Some 0 else S <$> indexOf c rest
  end.

(** [s.slice(0, k)] and [s.slice(k)] for [k] within the string. *)
Fixpoint slice_to (k : nat) (s : string) : string :=
  match k, s with
  | S k', String a rest => String a (slice_to k' rest)
  | _, _ => EmptyString
  end.

Fixpoint slice_from (k : nat) (s : string) : string :=
  match k, s with
  | S k', String _ rest => slice_from k' rest
  | _, _ => s
  end.

Module CLI.
Section Args.
(** [Number(value)]: [None] when the result is [NaN]. *)
Context {num : Type} (Number : string → option num).

Record CliOptions := {
  waitMs : option num;
  headless : option bool;
  crawl : option bool;
  maxPages : option num;
  output : option string;
  userDataDir : option string
}.

Definition set_waitMs (n : num) (o : CliOptions) : CliOptions :=
  {| waitMs := Some n; headless := headless o; crawl := crawl o;
     maxPages := maxPages o; output := output o; userDataDir := userDataDir o |}.

Definition set_maxPages (n : num) (o : CliOptions) : CliOptions :=
  {| waitMs := waitMs o; headless := headless o; crawl := crawl o;
     maxPages := Some n; output := output o; userDataDir := userDataDir o |}.

Definition set_output (v : string) (o : CliOptions) : CliOptions :=
  {| waitMs := waitMs o; headless := headless o; crawl := crawl o;
     maxPages := maxPages o; output := Some v; userDataDir := userDataDir o |}.

Definition set_userDataDir (v : string) (o : CliOptions) : CliOptions :=
  {| waitMs := waitMs o; headless := headless o; crawl := crawl o;
     maxPages := maxPages o; output := output o; userDataDir := Some v |}.

Definition set_headless (b : bool) (o : CliOptions) : CliOptions :=
  {| waitMs := waitMs o; headless := Some b; crawl := crawl o;
     maxPages := maxPages o; output := output o; userDataDir := userDataDir o |}.

Definition set_crawl (b : bool) (o : CliOptions) : CliOptions :=
  {| waitMs := waitMs o; headless := headless o; crawl := Some b;
     maxPages := maxPages o; output := output o; userDataDir := userDataDir o |}.

(** [getValue(args, idx, inline)], with [rest] the arguments after position
    [idx]; the boolean of the result says whether the next argument was
    taken ([nextIndex = idx + 1]) or not ([nextIndex = idx]).  A thrown
    [Error] is its message. *)
Definition getValue (rest : list string) (inline : option string)
    : string + (string * bool) :=
  match inline with
  | Some v => inr (v, false)
  | None =>
      match rest with
      | next :: _ =>
          if String.eqb next "" || startsWith next "-"
          then inl "Missing value for option"
          else inr (next, true)
      | [] => inl "Missing value for option"
      end
  end.

(** The [switch (flag)] of the loop body. *)
Definition apply_flag (flag : string) (inlineValue : option string)
    (rest : list string) (options : CliOptions) : string + (CliOptions * bool) :=
  if String.eqb flag "-w" || String.eqb flag "--wait" then
    match getValue rest inlineValue with
    | inl e => inl e
    | inr (value, taken) =>
        match Number value with
        | None => inl "wait must be a number"
        | Some n => inr (set_waitMs n options, taken)
        end
    end
  else if String.eqb flag "--max-pages" then
    match getValue rest inlineValue with
    | inl e => inl e
    | inr (value, taken) =>
        match Number value with
        | None => inl "max-pages must be a number"
        | Some n => inr (set_maxPages n options, taken)
        end
    end
  else if String.eqb flag "-o" || String.eqb flag "--output" then
    match getValue rest inlineValue with
    | inl e => inl e
    | inr (value, taken) => inr (set_output value options, taken)
    end
  else if String.eqb flag "--user-data-dir" then
    match getValue rest inlineValue with
    | inl e => inl e
    | inr (value, taken) => inr (set_userDataDir value options, taken)
    end
  else if String.eqb flag "--headless" then inr (set_headless true options, false)
  else if String.eqb flag "--headed" then inr (set_headless false options, false)
  else if String.eqb flag "--no-crawl" then inr (set_crawl false options, false)
  else if String.eqb flag "--crawl" then inr (set_crawl true options, false)
  else inl ("Unknown option: " +:+ flag).

(** The text of an option before its first [=], and the text after it. *)
Definition flag_of (arg : string) : string :=
  match indexOf "="%char arg with
  | None => arg
  | Some eqIndex => slice_to eqIndex arg
  end.

Definition inlineValue_of (arg : string) : option string :=
  match indexOf "="%char arg with
  | None => None
  | Some eqIndex => Some (slice_from (S eqIndex) arg)
  end.

(** The [for] loop of [parseArgs], on the arguments from position [i] on. *)
Fixpoint parse_from (argv : list string) (urls : list string)
    (options : CliOptions) : string + (list string * CliOptions) :=
  match argv with
  | [] => inr (urls, options)
  | arg :: rest =>
      if negb (startsWith arg "-") then parse_from rest (urls ++ [arg]) options
      else
        match apply_flag (flag_of arg) (inlineValue_of arg) rest options with
        | inl e => inl e
        | inr (options', taken) =>
            if taken then
              match rest with
              | _ :: rest' => parse_from rest' urls options'
              | [] => inr (urls, options')
              end
            else parse_from rest urls options'
        end
  end.

Definition defaults : CliOptions :=
  {| waitMs := None; headless := Some false; crawl := Some true;
     maxPages := None; output := None; userDataDir := None |}.

Definition parseArgs (argv : list string) : string + (list string * CliOptions) :=
  parse_from argv [] defaults.
End Args.
End CLI.

Definition value_flags : list string :=
  ["-w"; "--wait"; "--max-pages"; "-o"; "--output"; "--user-data-dir"].

Definition toggle_flags : list string :=
  ["--headless"; "--headed"; "--no-crawl"; "--crawl"].

(** An argument that is not an option. *)
Definition positional (arg : string) : Prop := startsWith arg "-" = false.


(** ** The runner ([main] of [playwright-capture.ts]) *)

(** What [main] needs from Node besides the session: path functions, the
    serialiser, and whether creating the directory and writing the file
    succeed. *)
Record Shell := {
  resolve : string → string;
  dirname : string → string;
  JSON_stringify : HAR.Doc → string;
  mkdirSync_ok : string → bool;
  writeFileSync_ok : string → bool
}.

(** What reaches [main().catch]. *)
Inductive failure :=
  | SessionFailed (e : error)
  | MkdirFailed (dir : string)
  | WriteFailed (path : string).

(** The lines [main] prints, each with the values its template shows. *)
Inductive line :=
  | ErrorMessage (msg : string)
  | Usage
  | Capturing (urls : list string) (headless crawl : bool)
  | Captured (requestCount : nat) (method : string)
  | CrawlerVisited (pages : nat)
  | OpenApiDetected (source : string)
  | CookiesCaptured (names : nat)
  | HarSaved (path : string)
  | CaptureFailed (err : failure).

Record Process := { status : nat; host : Host; console : list line }.

(** The options [main] hands to [captureWithHar].  [maxPages] is a natural
    in the interface of the session, which never reads it. *)
Definition capture_options (o : CLI.CliOptions (num := Z)) : CaptureOptions :=
  {| waitMs := CLI.waitMs o;
     headless := Some (default false (CLI.headless o));
     crawl := CLI.crawl o;
     crawlOptions :=
       match CLI.crawl o with
       | Some false => None
       | _ => Some {| maxPages := Z.to_nat (default 15%Z (CLI.maxPages o));
                      discoverOpenApi := true |}
       end;
     userDataDir := CLI.userDataDir o |}.

Definition crawl_lines (c : option CrawlResult) : list line :=
  match c with
  | Some c =>
      CrawlerVisited (pagesCrawled c)
      :: match openApiSource c with
         | Some src => [OpenApiDetected src]
         | None => []
         end
  | None => []
  end.

Section Main.
Context (Number : string → option Z) (W : World) (sh : Shell).

(** [resolve(options.output ?? `./unbrowse-capture-${Date.now()}.har`)] *)
Definition output_path (o : CLI.CliOptions (num := Z)) (σ : Host) : string * Host :=
  match CLI.output o with
  | Some p => (resolve sh p, σ)
  | None =>
      let t := clock W (ticks σ) in
      (resolve sh ("./unbrowse-capture-" +:+ pretty t +:+ ".har"),
       {| calls := calls σ ++ [Now t]; files := files σ;
          browser_running := browser_running σ; recorders := recorders σ;
          ticks := S (ticks σ) |})
  end.

(** [main], with the handler of [main().catch] and [process.exit]: the
    status is the exit code of the process. *)
Definition main (argv : list string) (disk : gmap string string) : Process :=
  match CLI.parseArgs Number argv with
  | inl msg =>
      {| status := 1; host := boot disk; console := [ErrorMessage msg; Usage] |}
  | inr ([], _) =>
      {| status := 1; host := boot disk; console := [Usage] |}
  | inr (urls, options) =>
      let banner :=
        Capturing urls (default false (CLI.headless options))
          (negb (bool_decide (CLI.crawl options = Some false))) in
      match captureWithHar W urls (capture_options options) (boot disk) with
      | (Throw e, σ) =>
          {| status := 1; host := σ;
             console := [banner; CaptureFailed (SessionFailed e)] |}
      | (Return result, σ) =>
          let '(outputPath, σ) := output_path options σ in
          if negb (mkdirSync_ok sh (dirname sh outputPath)) then
            {| status := 1; host := σ;
               console := [banner; CaptureFailed (MkdirFailed (dirname sh outputPath))] |}
          else if negb (writeFileSync_ok sh outputPath) then
            {| status := 1; host := σ;
               console := [banner; CaptureFailed (WriteFailed outputPath)] |}
          else
            {| status := 0;
               host := set_files (<[outputPath := JSON_stringify sh (har result)]> (files σ)) σ;
               console :=
                 [banner; Captured (requestCount result) (method result)]
                 ++ crawl_lines (crawlResult result)
                 ++ [CookiesCaptured (size (cookies result)); HarSaved outputPath] |}
      end
  end.
End Main.

(** An argument that is an option. *)
Definition dashed (arg : string) : Prop := startsWith arg "-" = true.

(** Options that agree on all that [main] and the session read. *)
Definition same_capture (o1 o2 : CLI.CliOptions (num := Z)) : Prop :=
  CLI.waitMs o1 = CLI.waitMs o2
  ∧ CLI.headless o1 = CLI.headless o2
  ∧ CLI.crawl o1 = CLI.crawl o2
  ∧ CLI.output o1 = CLI.output o2.

(** Two results of [parseArgs] that [main] cannot tell apart. *)
Definition same_parse (r1 r2 : string + (list string * CLI.CliOptions (num := Z))) : Prop :=
  match r1, r2 with
  | inl e1, inl e2 => e1 = e2
  | inr (u1, o1), inr (u2, o2) => u1 = u2 ∧ same_capture o1 o2
  | _, _ => False
  end.


(** ** Slot times of the OpenTable script (lines 116-133) *)

Module OpenTable.
(** [slot.timeOffsetMinutes || 0] *)
Definition offset_of (timeOffsetMinutes : option Z) : Z :=
  match timeOffsetMinutes with
  | Some n => if (n =? 0)%Z then 0%Z else n
  | None => 0%Z
  end.

(** [finalMinutes] after the two adjustments. *)
Definition finalMinutes (baseTotalMinutes : Z) (timeOffsetMinutes : option Z) : Z :=
  let finalMinutes := (baseTotalMinutes + offset_of timeOffsetMinutes)%Z in
  let finalMinutes :=
    if (finalMinutes <? 0)%Z then (finalMinutes + 1440)%Z else finalMinutes in
  let finalMinutes :=
    if (1440 <=? finalMinutes)%Z then (finalMinutes - 1440)%Z else finalMinutes in
  finalMinutes.

(** [Math.floor(finalMinutes / 60)] and [finalMinutes % 60]: JavaScript's
    [%] takes the sign of the dividend. *)
Definition h (finalMinutes : Z) : Z := (finalMinutes / 60)%Z.
Definition m (finalMinutes : Z) : Z := Z.rem finalMinutes 60.

(** [n.toString().padStart(2, '0')] *)
Definition pad2 (n : Z) : string :=
  let s := pretty n in
  if (String.length s <? 2)%nat then "0" +:+ s else s.

Definition timeStr (finalMinutes : Z) : string :=
  pad2 (h finalMinutes) +:+ ":" +:+ pad2 (m finalMinutes).
End OpenTable.

(** ** Venue addresses of the Resy script ([parseResyUrl]) *)

(** [s.split(c)] for a one-character separator. *)
Fixpoint split_on (c : Ascii.ascii) (s : string) : list string :=
  match s with
  | EmptyString => [EmptyString]
  | String a rest =>
      if Ascii.eqb a c then EmptyString :: split_on c rest
      else
        match split_on c rest with
        | first :: others => String a first :: others
        | [] => [String a EmptyString]
        end
  end.

(** [parts.filter(p => p)]: the empty string is the only falsy string. *)
Definition nonempty_parts (parts : list string) : list string :=
  List.filter (λ p, negb (String.eqb p "")) parts.

(** ** The Cookie header of the OpenTable script (lines 33-36) *)

(** [c.split(';')[0]] *)
Definition before_semicolon (c : string) : string :=
  match split_on ";" c with
  | first :: _ => first
  | [] => EmptyString
  end.

(** [parts.join(sep)] *)
Fixpoint join (sep : string) (parts : list string) : string :=
  match parts with
  | [] => EmptyString
  | [p] => p
  | p :: rest => p +:+ sep +:+ join sep rest
  end.

(** The value given to [cookies]: empty unless there is a [Set-Cookie]
    line. *)
Definition cookie_header (setCookieHeader : list string) : string :=
  if (0 <? length setCookieHeader)%nat
  then join "; " (before_semicolon <$> setCookieHeader)
  else EmptyString.

Module Resy.
Record Venue := { location : option string; slug : option string }.

Section Url.
(** [new URL(u).pathname]; [None] when the constructor throws. *)
Context (URL_pathname : string → option string).

Definition parseResyUrl (resyUrl : string) : option Venue :=
  pathname ← URL_pathname resyUrl;
  let pathParts := nonempty_parts (split_on "/" pathname) in
  Some
    (if bool_decide (pathParts !! 0 = Some "cities") then
       {| location := pathParts !! 1;
          slug := if bool_decide (pathParts !! 2 = Some "venues")
                  then pathParts !! 3 else pathParts !! 2 |}
     else if bool_decide (pathParts !! 0 = Some "venues") then
       {| location := Some "sf"; slug := pathParts !! 1 |}
     else
       {| location := Some "sf"; slug := last pathParts |}).
End Url.
End Resy.

(** ** Samples for the runner and the scripts *)

(** A stand-in for [Number] on the strings of the examples: unsigned
    decimal literals have their value, the empty string is [0], anything
    else is taken as [NaN]. *)
Definition digit_of (a : Ascii.ascii) : option Z :=
  let n := nat_of_ascii a in
  if (48 <=? n)%nat && (n <=? 57)%nat then Some (Z.of_nat (n - 48)) else None.

Fixpoint decimal_from (s : string) (acc : Z) : option Z :=
  match s with
  | EmptyString => Some acc
  | String a rest => d ← digit_of a; decimal_from rest (10 * acc + d)%Z
  end.

Definition sample_Number (s : string) : option Z := decimal_from s 0.

Definition sample_shell : Shell :=
  {| resolve := λ p, "/work/" +:+ p;
     dirname := λ _, "/work";
     JSON_stringify := λ doc, "HAR with " +:+ pretty (length (exchange_records doc)) +:+ " entries";
     mkdirSync_ok := λ _, true;
     writeFileSync_ok := λ _, true |}.

(** The path of an address on [resy.com]. *)
Definition sample_pathname (u : string) : option string :=
  if String.prefix "https://resy.com/" u then Some (slice_from 16 u) else None.

(** * Lemmas *)

(** ** Projections of the log *)

Lemma failed_targets_app l1 l2 :
  failed_targets (l1 ++ l2) = failed_targets l1 + failed_targets l2.
Proof. induction l1 as [|e l1 IH]; simpl; [reflexivity|]. rewrite IH. lia. Qed.

Lemma omap_ruled_out {A B} (P : A → bool) (f : A → option B) (l : list A) :
  (∀ a, P a = true → f a = None) → forallb P l = true → omap f l = [].
Proof.
  intros Hno. induction l as [|a l IH]; simpl; [reflexivity|].
  intros [Ha Hl]%andb_prop. rewrite (Hno a Ha). auto.
Qed.

Lemma failed_targets_ruled_out (P : event → bool) (l : list event) :
  (∀ e, P e = true → failed_load e = false) → forallb P l = true →
  failed_targets l = 0.
Proof.
  intros Hno. induction l as [|e l IH]; simpl; [reflexivity|].
  intros [He Hl]%andb_prop. rewrite (Hno e He). auto.
Qed.

Lemma page_event_lifecycle e : page_event e = true → lifecycle_call e = None.
Proof. destruct e as [[] ?| | |]; simpl; congruence. Qed.

Lemma page_event_destination e : page_event e = true → recording_destination e = None.
Proof. destruct e as [[] ?| | |]; simpl; congruence. Qed.

Lemma scratch_event_lifecycle e : scratch_event e = true → lifecycle_call e = None.
Proof.
  destruct e as [[? | ? [] | | | | | | | | ] ?| | |]; simpl; try congruence.
  all: intros ->; reflexivity.
Qed.

Lemma scratch_event_goto e : scratch_event e = true → goto_target e = None.
Proof. destruct e as [[? | ? [] | | | | | | | | ] ?| | |]; simpl; congruence. Qed.

Lemma scratch_event_pause e : scratch_event e = true → pause_length e = None.
Proof. destruct e as [[? | ? [] | | | | | | | | ] ?| | |]; simpl; congruence. Qed.

Lemma scratch_event_loaded e : scratch_event e = true → failed_load e = false.
Proof. destruct e as [[? | ? [] | | | | | | | | ] []| | |]; simpl; congruence. Qed.

Lemma scratch_destinations sevs :
  forallb scratch_event sevs = true →
  ∀ p, p ∈ destinations sevs → p = scratch_path.
Proof.
  intros Hs p (e & He & Hp)%list_elem_of_omap.
  rewrite forallb_forall in Hs. apply list_elem_of_In, Hs in He.
  destruct e as [[? | q [] | | | | | | | | ] ?| | |]; simpl in *; try congruence.
  apply String.eqb_eq in He. congruence.
Qed.

Lemma extend_extend evs1 evs2 σ :
  extend evs2 (extend evs1 σ) = extend (evs1 ++ evs2) σ.
Proof. unfold extend; simpl. by rewrite app_assoc. Qed.

(** ** The destination *)

Lemma tempHarPath_not_scratch t : String.eqb (tempHarPath t) scratch_path = false.
Proof. reflexivity. Qed.

Lemma string_length_app (s1 s2 : string) :
  String.length (s1 +:+ s2) = String.length s1 + String.length s2.
Proof. induction s1 as [|a s1 IH]; simpl; [reflexivity|]. by rewrite IH. Qed.

Lemma string_app_cancel_r (s1 s2 t : string) : s1 +:+ t = s2 +:+ t → s1 = s2.
Proof.
  intros Heq.
  assert (Hlen : String.length s1 = String.length s2).
  { apply (f_equal String.length) in Heq.
    rewrite !string_length_app in Heq. lia. }
  revert s2 Heq Hlen.
  induction s1 as [|a s1 IH]; intros [|b s2]; simpl; try discriminate; [reflexivity|].
  intros [= -> Heq] [= Hlen]. f_equal. auto.
Qed.

Lemma tempHarPath_inj t1 t2 : tempHarPath t1 = tempHarPath t2 → t1 = t2.
Proof.
  unfold tempHarPath. intros Heq.
  apply (inj (String.app "temp_capture_")) in Heq.
  apply string_app_cancel_r in Heq.
  by apply (inj pretty).
Qed.

(** ** The visiting loop *)

Section Loop.
Context (W : World) (options : CaptureOptions).

Lemma visit_runs i url n σ :
  ∃ n' evs,
    visit W options i url n σ = (Return n', extend evs σ)
    ∧ visited options [url] n n' evs.
Proof.
  unfold visit, try_catch, console_log, console_error, goto, waitForTimeout,
    invoke, effect, mbind, M_bind, mret, M_ret, visited, gotos, pauses.
  cbn beta iota.
  destruct (responds W (Goto i url)) eqn:Hgo.
  - destruct (truthy (waitMs options)) as [ms|].
    + destruct (responds W (WaitForTimeout i ms)) eqn:Hpause.
      * exists (S n), [ConsoleLog url; Called (Goto i url) true;
                       Called (WaitForTimeout i ms) true].
        unfold extend, note; simpl. rewrite <- !app_assoc. simpl.
        repeat split; try lia. intros ? ->%list_elem_of_singleton. reflexivity.
      * exists n, [ConsoleLog url; Called (Goto i url) true;
                   Called (WaitForTimeout i ms) false; ConsoleError url].
        unfold extend, note; simpl. rewrite <- !app_assoc. simpl.
        repeat split; try lia. intros ? ->%list_elem_of_singleton. reflexivity.
    + exists (S n), [ConsoleLog url; Called (Goto i url) true].
      unfold extend, note; simpl. rewrite <- !app_assoc. simpl.
      repeat split; try lia. intros ? []%elem_of_nil.
  - exists n, [ConsoleLog url; Called (Goto i url) false; ConsoleError url].
    unfold extend, note; simpl. rewrite <- !app_assoc. simpl.
    repeat split; try lia. intros ? []%elem_of_nil.
Qed.

Lemma visit_all_runs urls : ∀ i n σ,
  ∃ n' evs,
    visit_all W options urls i n σ = (Return n', extend evs σ)
    ∧ visited options urls n n' evs.
Proof.
  induction urls as [|url rest IH]; intros i n σ.
  - exists n, []. unfold extend, visited; simpl. rewrite app_nil_r.
    destruct σ; repeat split; simpl; try lia. intros ? []%elem_of_nil.
  - destruct (visit_runs i url n σ)
      as (n1 & evs1 & Hrun1 & Hpage1 & Hgo1 & Hcount1 & Hpause1).
    destruct (IH (S i) n1 (extend evs1 σ))
      as (n2 & evs2 & Hrun2 & Hpage2 & Hgo2 & Hcount2 & Hpause2).
    exists n2, (evs1 ++ evs2). split; [|repeat split].
    + change (visit_all W options (url :: rest) i n σ)
        with (match visit W options i url n σ with
              | (Return a, σ') => visit_all W options rest (S i) a σ'
              | (Throw e, σ') => (Throw e, σ')
              end).
      rewrite Hrun1, Hrun2, extend_extend. reflexivity.
    + rewrite forallb_app, Hpage1, Hpage2. reflexivity.
    + unfold gotos in *. rewrite omap_app, Hgo1, Hgo2. reflexivity.
    + rewrite failed_targets_app. simpl in *. lia.
    + unfold pauses in *. intros ms. rewrite omap_app, elem_of_app.
      intros [?|?]; auto.
Qed.
End Loop.

(** ** Rules of [wp] *)

Section Rules.
Context (W : World).

Lemma wp_bind {A B} (m : M A) (f : A → M B) σ Q :
  wp m σ (λ o σ', match o with
                  | Return a => wp (f a) σ' Q
                  | Throw e => Q (Throw e) σ'
                  end) →
  wp (m ≫= f) σ Q.
Proof.
  unfold wp, mbind, M_bind. destruct (m σ) as [[a|e] σ']; simpl; auto.
Qed.

Lemma wp_ret {A} (a : A) σ (Q : outcome A → Host → Prop) :
  Q (Return a) σ → wp (mret a) σ Q.
Proof. auto. Qed.

Lemma wp_throw {A} e σ (Q : outcome A → Host → Prop) :
  Q (Throw e) σ → wp (throw e) σ Q.
Proof. auto. Qed.

Lemma wp_effect f σ Q : Q (Return tt) (f σ) → wp (effect f) σ Q.
Proof. auto. Qed.

Lemma wp_try_catch {A} (body : M A) handler σ Q :
  wp body σ (λ o σ', match o with
                     | Return a => Q (Return a) σ'
                     | Throw e => wp (handler e) σ' Q
                     end) →
  wp (try_catch body handler) σ Q.
Proof.
  unfold wp, try_catch. destruct (body σ) as [[a|e] σ']; simpl; auto.
Qed.

Lemma wp_invoke c σ Q :
  (responds W c = true → Q (Return tt) (note (Called c true) σ)) →
  (responds W c = false → Q (Throw (Rejected c)) (note (Called c false) σ)) →
  wp (invoke W c) σ Q.
Proof. unfold wp, invoke. destruct (responds W c); simpl; auto. Qed.

Lemma wp_Date_now σ Q :
  Q (Return (clock W (ticks σ)))
    {| calls := calls σ ++ [Now (clock W (ticks σ))]; files := files σ;
       browser_running := browser_running σ; recorders := recorders σ;
       ticks := S (ticks σ) |} →
  wp (Date_now W) σ Q.
Proof. auto. Qed.

Lemma wp_readFile path σ Q :
  (∀ text, files σ !! path = Some text → responds W (ReadFile path) = true →
     Q (Return text) (note (Called (ReadFile path) true) σ)) →
  (files σ !! path = None →
     Q (Throw (ENOENT path)) (note (Called (ReadFile path) false) σ)) →
  (responds W (ReadFile path) = false →
     Q (Throw (Rejected (ReadFile path))) (note (Called (ReadFile path) false) σ)) →
  wp (readFile W path) σ Q.
Proof.
  unfold wp, readFile. intros Hok Hgone Hfail.
  destruct (files σ !! path) as [text|]; [|simpl; auto].
  destruct (responds W (ReadFile path)) eqn:Hr; simpl; auto.
Qed.

Lemma wp_unlink path σ Q :
  (is_Some (files σ !! path) → responds W (Unlink path) = true →
     Q (Return tt) (set_files (delete path (files σ))
                      (note (Called (Unlink path) true) σ))) →
  (files σ !! path = None →
     Q (Throw (ENOENT path)) (note (Called (Unlink path) false) σ)) →
  (responds W (Unlink path) = false →
     Q (Throw (Rejected (Unlink path))) (note (Called (Unlink path) false) σ)) →
  wp (unlink W path) σ Q.
Proof.
  unfold wp, unlink. intros Hok Hgone Hfail.
  destruct (files σ !! path) as [text|] eqn:Hf; [|simpl; auto].
  destruct (responds W (Unlink path)) eqn:Hr; simpl; auto.
Qed.

Lemma wp_parse text σ Q :
  (∀ doc, JSON_parse W text = Some doc → Q (Return doc) σ) →
  (JSON_parse W text = None → Q (Throw SyntaxError) σ) →
  wp (parse W text) σ Q.
Proof. unfold wp, parse. destruct (JSON_parse W text); simpl; auto. Qed.

Lemma wp_entries_length doc σ Q :
  (∀ l es, HAR.log doc = Some l → HAR.entries l = Some es →
     Q (Return (length es)) σ) →
  (HAR.log doc ≫= HAR.entries = None → Q (Throw TypeError) σ) →
  wp (entries_length doc) σ Q.
Proof.
  unfold wp, entries_length. intros Hok Hfail.
  destruct (HAR.log doc) as [l|]; [|simpl; apply Hfail; reflexivity].
  destruct (HAR.entries l) as [es|] eqn:He; simpl; [eauto|].
  apply Hfail. exact He.
Qed.

Lemma wp_visit_all options urls i n σ Q :
  (∀ n' evs, visited options urls n n' evs → Q (Return n') (extend evs σ)) →
  wp (visit_all W options urls i n) σ Q.
Proof.
  intros HQ. unfold wp.
  destruct (visit_all_runs W options urls i n σ) as (n' & evs & -> & ?).
  simpl. auto.
Qed.
End Rules.

Ltac wp_host :=
  unfold note, set_running, set_recorders, set_files, extend, boot;
  repeat (progress cbn [calls files browser_running recorders ticks
                          note set_running set_recorders set_files extend boot
                          app flush foldl default from_option id
                          fmap option_fmap option_map Nat.add]
          || rewrite lookup_insert_eq
          || rewrite lookup_alter_eq).

Ltac wp_host_in H :=
  unfold note, set_running, set_recorders, set_files, extend, boot in H;
  repeat (progress cbn [calls files browser_running recorders ticks
                          note set_running set_recorders set_files extend boot
                          app flush foldl default from_option id
                          fmap option_fmap option_map Nat.add] in H
          || rewrite lookup_insert_eq in H
          || rewrite lookup_alter_eq in H).

(** A file the session has just written is there to be read and deleted. *)
Ltac wp_present H :=
  wp_host_in H; first [ discriminate H | injection H as <- | idtac ].

Ltac wp_head W :=
  lazymatch goal with
  | |- wp (_ ≫= _) _ _ => apply wp_bind
  | |- wp (mret _) _ _ => apply wp_ret
  | |- wp (throw _) _ _ => apply wp_throw
  | |- wp (effect _) _ _ => apply wp_effect
  | |- wp (try_catch _ _) _ _ => apply wp_try_catch
  | |- wp (invoke _ _) _ _ => apply (wp_invoke W); intros ?
  | |- wp (Date_now _) _ _ => apply (wp_Date_now W)
  | |- wp (readFile _ _) _ _ =>
      let H := fresh "Hfile" in
      apply (wp_readFile W); [intros ? H ?|intros H|intros ?]; try wp_present H
  | |- wp (unlink _ _) _ _ =>
      let H := fresh "Hfile" in
      apply (wp_unlink W); [intros _ ?|intros H|intros ?]; try wp_present H
  | |- wp (parse _ _) _ _ => apply (wp_parse W); [intros ? ?|intros ?]
  | |- wp (entries_length _) _ _ => apply wp_entries_length; [intros ? ? ? ?|intros ?]
  | |- wp (visit_all _ _ _ _ _) _ _ =>
      apply (wp_visit_all W); intros ? ? (? & ? & ? & ?)
  end.

Ltac wp_unfold :=
  unfold launch, newContext, routeFromHAR, close_context, close_browser,
    newPage, goto, waitForTimeout, console_log, console_error.

Ltac wp_walk W := repeat (wp_unfold; cbn beta iota; wp_host; wp_head W).

(** [first_attempt] never throws.  It leaves scratch events in the log, may
    write files and leave a recorder behind, and reads the clock once if its
    context opened. *)
Lemma wp_first_attempt W σ Q :
  (∀ sevs F R,
     forallb scratch_event sevs = true →
     (∀ p, p ∈ destinations sevs → p = scratch_path) →
     Q (Return tt)
       {| calls := calls σ ++ sevs; files := F;
          browser_running := browser_running σ; recorders := R;
          ticks := ticks σ + scratch_ticks W |}) →
  wp (first_attempt W) σ Q.
Proof.
  intros HQ.
  assert (HQ' : ∀ sevs F R, forallb scratch_event sevs = true →
     Q (Return tt)
       {| calls := calls σ ++ sevs; files := F;
          browser_running := browser_running σ; recorders := R;
          ticks := ticks σ + scratch_ticks W |})
    by (intros; apply HQ; [done|by apply scratch_destinations]).
  clear HQ. unfold scratch_ticks in HQ'. unfold first_attempt.
  wp_walk W.
  all: repeat match goal with
       | H : responds _ (NewContext scratch_path None) = _ |- _ =>
           rewrite H, ?Nat.add_0_r, ?Nat.add_1_r in HQ'; clear H
       end.
  all: wp_host; rewrite <- ?app_assoc; cbn [app]; apply HQ'; reflexivity.
Qed.

Ltac wp_step W :=
  wp_unfold; cbn beta iota; wp_host;
  lazymatch goal with
  | |- wp (first_attempt _) _ _ => apply (wp_first_attempt W); intros ? ? ? ? ?
  | |- _ => wp_head W
  end.

Ltac wp_run W :=
  unfold captureWithHar; repeat wp_step W; wp_host;
  rewrite <- ?app_assoc; cbn [app].

(** From a fact about every run to a fact about the session at hand. *)
Lemma wp_session W disk urls options (Q : outcome CaptureResult → Host → Prop) :
  wp (captureWithHar W urls options) (boot disk) Q →
  ∀ o σ, session W disk urls options = (o, σ) → Q o σ.
Proof. unfold wp, session. intros HQ o σ Heq. rewrite Heq in HQ. exact HQ. Qed.

(** ** Projecting the log of a run *)

Lemma gotos_scratch sevs : forallb scratch_event sevs = true → gotos sevs = [].
Proof. apply omap_ruled_out, scratch_event_goto. Qed.

Lemma pauses_scratch sevs : forallb scratch_event sevs = true → pauses sevs = [].
Proof. apply omap_ruled_out, scratch_event_pause. Qed.

Lemma lifecycle_scratch sevs : forallb scratch_event sevs = true → lifecycle sevs = [].
Proof. apply omap_ruled_out, scratch_event_lifecycle. Qed.

Lemma failures_scratch sevs :
  forallb scratch_event sevs = true → failed_targets sevs = 0.
Proof. apply failed_targets_ruled_out, scratch_event_loaded. Qed.

Lemma lifecycle_page evs : forallb page_event evs = true → lifecycle evs = [].
Proof. apply omap_ruled_out, page_event_lifecycle. Qed.

Lemma destinations_page evs : forallb page_event evs = true → destinations evs = [].
Proof. apply omap_ruled_out, page_event_destination. Qed.

Lemma gotos_app l1 l2 : gotos (l1 ++ l2) = gotos l1 ++ gotos l2.
Proof. apply omap_app. Qed.

Lemma pauses_app l1 l2 : pauses (l1 ++ l2) = pauses l1 ++ pauses l2.
Proof. apply omap_app. Qed.

Lemma lifecycle_app l1 l2 : lifecycle (l1 ++ l2) = lifecycle l1 ++ lifecycle l2.
Proof. apply omap_app. Qed.

Lemma destinations_app l1 l2 :
  destinations (l1 ++ l2) = destinations l1 ++ destinations l2.
Proof. apply omap_app. Qed.

Lemma gotos_cons e l : gotos (e :: l) = gotos [e] ++ gotos l.
Proof. apply (gotos_app [e]). Qed.

Lemma pauses_cons e l : pauses (e :: l) = pauses [e] ++ pauses l.
Proof. apply (pauses_app [e]). Qed.

Lemma lifecycle_cons e l : lifecycle (e :: l) = lifecycle [e] ++ lifecycle l.
Proof. apply (lifecycle_app [e]). Qed.

Lemma destinations_cons e l : destinations (e :: l) = destinations [e] ++ destinations l.
Proof. apply (destinations_app [e]). Qed.

Lemma failed_targets_cons e l :
  failed_targets (e :: l) = failed_targets [e] + failed_targets l.
Proof. apply (failed_targets_app [e]). Qed.

(** Splits the log of a run into its events and drops the scratch and page
    events that a projection does not see. *)
Ltac log_split :=
  repeat match goal with
         | |- context [gotos (?e :: ?l)] =>
             lazymatch l with [] => fail | _ => rewrite (gotos_cons e l) end
         | |- context [pauses (?e :: ?l)] =>
             lazymatch l with [] => fail | _ => rewrite (pauses_cons e l) end
         | |- context [lifecycle (?e :: ?l)] =>
             lazymatch l with [] => fail | _ => rewrite (lifecycle_cons e l) end
         | |- context [destinations (?e :: ?l)] =>
             lazymatch l with [] => fail | _ => rewrite (destinations_cons e l) end
         | |- context [failed_targets (?e :: ?l)] =>
             lazymatch l with [] => fail
             | _ => rewrite (failed_targets_cons e l) end
         | |- _ => rewrite gotos_app
         | |- _ => rewrite pauses_app
         | |- _ => rewrite lifecycle_app
         | |- _ => rewrite destinations_app
         | |- _ => rewrite failed_targets_app
         end.

Ltac log_drop :=
  repeat match goal with
         | H : forallb scratch_event ?s = true |- _ =>
             first [ rewrite (gotos_scratch s H) | rewrite (pauses_scratch s H)
                   | rewrite (lifecycle_scratch s H)
                   | rewrite (failures_scratch s H) ]
         | H : forallb page_event ?s = true |- _ =>
             first [ rewrite (lifecycle_page s H) | rewrite (destinations_page s H) ]
         end.

Ltac log_project :=
  log_split; log_drop;
  cbn [gotos pauses lifecycle destinations failed_targets
       omap list_omap goto_target pause_length lifecycle_call
       recording_destination failed_load app Nat.add];
  rewrite ?tempHarPath_not_scratch; cbn [app].

(** * The claims *)

(** ** Request count *)

(** C1.  Whenever [captureWithHar] returns a result, the returned trace has
    a [log.entries] list and [requestCount] is its length; this holds for
    every target list, configuration and world, hence also when targets
    fail to load. *)
Theorem requestCount_counts_exchange_records W disk urls options r σ :
  session W disk urls options = (Return r, σ) →
  HAR.log (har r) ≫= HAR.entries = Some (exchange_records (har r))
  ∧ requestCount r = length (exchange_records (har r)).
Proof.
  intros Hrun.
  refine (wp_session W disk urls options
            (λ o _, ∀ r, o = Return r →
               HAR.log (har r) ≫= HAR.entries = Some (exchange_records (har r))
               ∧ requestCount r = length (exchange_records (har r)))
            _ _ _ Hrun r eq_refl).
  wp_run W; intros ? [= <-]; cbn [har requestCount].
  unfold exchange_records.
  match goal with H : HAR.log _ = Some _ |- _ => rewrite H end. simpl.
  match goal with H : HAR.entries _ = Some _ |- _ => rewrite H end. done.
Qed.

(** The second of two targets is unreachable; the count is still the length
    of the trace. *)
Lemma requestCount_counts_exchange_records_witness :
  ∃ r σ, session second_unreachable ∅ two_targets sample_options = (Return r, σ)
         ∧ crawlResult r = Some {| pagesCrawled := 1; openApiSource := None |}
         ∧ requestCount r = 2
         ∧ requestCount r = length (exchange_records (har r)).
Proof.
  exists {| har := sample_trace; requestCount := 2; method := "playwright-har";
            crawlResult := Some {| pagesCrawled := 1; openApiSource := None |};
            cookies := <["theme" := "dark"]> (<["sid" := "new"]> ∅) |}.
  exists (session second_unreachable ∅ two_targets sample_options).2.
  assert (Hrun : session second_unreachable ∅ two_targets sample_options
                 = (Return {| har := sample_trace; requestCount := 2;
                              method := "playwright-har";
                              crawlResult := Some {| pagesCrawled := 1;
                                                     openApiSource := None |};
                              cookies := <["theme" := "dark"]> (<["sid" := "new"]> ∅) |},
                    (session second_unreachable ∅ two_targets sample_options).2))
    by (vm_compute; reflexivity).
  split; [exact Hrun|]. split; [reflexivity|]. split; [reflexivity|].
  exact (proj2 (requestCount_counts_exchange_records _ _ _ _ _ _ Hrun)).
Defined.

(** ** Visited pages *)

Lemma failed_targets_split log :
  failed_targets log = goto_failures log + pause_failures log.
Proof.
  induction log as [|e log IH]; [reflexivity|].
  destruct e as [[] []| | |]; simpl; lia.
Qed.

Lemma pause_failures_pauses log : pauses log = [] → pause_failures log = 0.
Proof.
  unfold pauses. induction log as [|e log IH]; [reflexivity|].
  destruct e as [[] []| | |]; simpl; auto; discriminate.
Qed.

(** Every pause of a session has the configured, non-zero length. *)
Lemma session_pauses W disk urls options :
  wp (captureWithHar W urls options) (boot disk) (λ _ σ,
    ∀ ms, ms ∈ pauses (calls σ) → truthy (waitMs options) = Some ms).
Proof.
  wp_run W.
  all: log_project; rewrite ?app_nil_r; try (by intros ? ?%elem_of_nil); auto.
Qed.

Lemma session_without_pauses W disk urls options o σ :
  session W disk urls options = (o, σ) →
  truthy (waitMs options) = None → pauses (calls σ) = [].
Proof.
  intros Hrun Hnone.
  pose proof (wp_session _ _ _ _ _ (session_pauses W disk urls options) _ _ Hrun)
    as Hpauses.
  simpl in Hpauses.
  destruct (pauses (calls σ)) as [|ms ?]; [reflexivity|].
  specialize (Hpauses ms (list_elem_of_here _ _)). congruence.
Qed.

(** C5, as amended.  In a returned result [crawlResult.pagesCrawled] is
    the number of targets less those whose [page.goto] rejected and those
    whose pause after it rejected.  So it is at most the length of the
    target list, and equal to it exactly when every navigation succeeds and
    no pause after a navigation raises; there is no pause when [waitMs] is
    absent or zero.  [page.goto] is called once per target, in list order:
    a failed target is skipped, not retried. *)
Theorem pagesCrawled_counts_loaded_targets W disk urls options r σ :
  session W disk urls options = (Return r, σ) →
  ∃ n, crawlResult r = Some {| pagesCrawled := n; openApiSource := None |}
       ∧ n + goto_failures (calls σ) + pause_failures (calls σ) = length urls
       ∧ n ≤ length urls
       ∧ (n = length urls
          ↔ goto_failures (calls σ) = 0 ∧ pause_failures (calls σ) = 0)
       ∧ (truthy (waitMs options) = None → pause_failures (calls σ) = 0)
       ∧ gotos (calls σ) = urls.
Proof.
  intros Hrun.
  assert (Hcount : ∃ n,
            crawlResult r = Some {| pagesCrawled := n; openApiSource := None |}
            ∧ n + failed_targets (calls σ) = length urls
            ∧ gotos (calls σ) = urls).
  { refine (wp_session W disk urls options
              (λ o σ, ∀ r, o = Return r →
                 ∃ n, crawlResult r
                      = Some {| pagesCrawled := n; openApiSource := None |}
                      ∧ n + failed_targets (calls σ) = length urls
                      ∧ gotos (calls σ) = urls)
              _ _ _ Hrun r eq_refl).
    wp_run W; intros ? [= <-]; cbn [crawlResult calls].
    eexists. split; [reflexivity|]. log_project.
    match goal with H : gotos _ = urls |- _ => rewrite H end.
    rewrite app_nil_r. split; [lia|done]. }
  destruct Hcount as (n & Hcrawl & Hsum & Hgotos).
  rewrite failed_targets_split in Hsum.
  exists n. repeat split; try lia; try done.
  intros Hnone. eapply pause_failures_pauses, session_without_pauses; eauto.
Qed.

(** The second of two targets is unreachable. *)
Lemma pagesCrawled_counts_loaded_targets_witness :
  ∃ r σ, session second_unreachable ∅ two_targets sample_options = (Return r, σ)
         ∧ crawlResult r = Some {| pagesCrawled := 1; openApiSource := None |}
         ∧ goto_failures (calls σ) = 1
         ∧ pause_failures (calls σ) = 0
         ∧ gotos (calls σ) = two_targets.
Proof.
  exists {| har := sample_trace; requestCount := 2; method := "playwright-har";
            crawlResult := Some {| pagesCrawled := 1; openApiSource := None |};
            cookies := <["theme" := "dark"]> (<["sid" := "new"]> ∅) |}.
  exists (session second_unreachable ∅ two_targets sample_options).2.
  assert (Hrun : session second_unreachable ∅ two_targets sample_options
                 = (Return {| har := sample_trace; requestCount := 2;
                              method := "playwright-har";
                              crawlResult := Some {| pagesCrawled := 1;
                                                     openApiSource := None |};
                              cookies := <["theme" := "dark"]> (<["sid" := "new"]> ∅) |},
                    (session second_unreachable ∅ two_targets sample_options).2))
    by (vm_compute; reflexivity).
  destruct (pagesCrawled_counts_loaded_targets _ _ _ _ _ _ Hrun)
    as (n & Hcrawl & _ & _ & _ & Hpause & Hgotos).
  split; [exact Hrun|]. split; [reflexivity|].
  split; [vm_compute; reflexivity|]. split; [|exact Hgotos].
  apply Hpause. reflexivity.
Defined.

(** The claim as stated fails: with [waitMs = 1000] the only navigation
    succeeds ([page.goto] resolved, no navigation failed), the pause after
    it raises, and the count stays below the length of the target list. *)
Lemma navigation_succeeds_yet_not_counted :
  (session pause_rejected ∅ ["https://example.com"] patient_options).1
  = Return {| har := sample_trace; requestCount := 2; method := "playwright-har";
              crawlResult := Some {| pagesCrawled := 0; openApiSource := None |};
              cookies := <["theme" := "dark"]> (<["sid" := "new"]> ∅) |}
  ∧ List.filter page_event
      (calls (session pause_rejected ∅ ["https://example.com"] patient_options).2)
    = [ ConsoleLog "https://example.com";
        Called (Goto 0 "https://example.com") true;
        Called (WaitForTimeout 0 1000) false;
        ConsoleError "https://example.com" ]
  ∧ goto_failures
      (calls (session pause_rejected ∅ ["https://example.com"] patient_options).2)
    = 0.
Proof. split; [|split]; vm_compute; reflexivity. Qed.

(** ** When the session raises *)

(** The postcondition shared by the claims on failure: the session raises
    exactly when an unguarded step fails, and otherwise returns the full
    summary of the trace that was flushed. *)
Lemma captureWithHar_outcome W disk urls options :
  wp (captureWithHar W urls options) (boot disk) (λ o σ,
    match o with
    | Throw _ => unguarded_ok W options = false
    | Return r =>
        unguarded_ok W options = true
        ∧ JSON_parse W (recorded W (destination W)) = Some (har r)
        ∧ flushed_records W = Some (exchange_records (har r))
        ∧ requestCount r = length (exchange_records (har r))
        ∧ cookies r = merge_trace ∅ (har r)
        ∧ crawlResult r
          = Some {| pagesCrawled := length urls - failed_targets (calls σ);
                    openApiSource := None |}
        ∧ gotos (calls σ) = urls
    end).
Proof.
  wp_run W.
  all: unfold unguarded_ok, unguarded_calls, flushed_records, destination,
         capture_time in *; cbn [forallb].
  all: repeat match goal with
         | H : responds _ _ = _ |- _ => rewrite H; clear H
         | H : JSON_parse _ _ = _ |- _ => rewrite H; clear H
         end; cbn [andb mbind option_bind]; try reflexivity.
  - (* the result *)
    cbn [har requestCount cookies crawlResult].
    unfold exchange_records.
    repeat (match goal with
            | H : HAR.log _ = _ |- _ => rewrite H
            | H : HAR.entries _ = _ |- _ => rewrite H
            end; cbn [mbind option_bind default from_option id]).
    log_project.
    match goal with H : gotos _ = urls |- _ => rewrite H end.
    rewrite app_nil_r. repeat split; try done.
    do 2 f_equal. lia.
  - (* no [log.entries] *)
    apply bool_decide_eq_false. intros [es Hes].
    match goal with H : _ ≫= HAR.entries = None |- _ =>
      change (HAR.log doc ≫= HAR.entries = Some es) in Hes; congruence
    end.
Qed.

Lemma forallb_false {A} (f : A → bool) (l : list A) :
  forallb f l = false ↔ ∃ a, a ∈ l ∧ f a = false.
Proof.
  induction l as [|a l IH]; simpl.
  - split; [discriminate|]. intros (? & []%elem_of_nil & _).
  - rewrite andb_false_iff, IH. split.
    + intros [Ha|(b & Hb & Hfb)]; [exists a|exists b]; split; auto; constructor; auto.
    + intros (b & [->|Hb]%elem_of_cons & Hfb); eauto.
Qed.

Lemma unguarded_ok_false W options :
  unguarded_ok W options = false
  ↔ (∃ c, c ∈ unguarded_calls W options ∧ responds W c = false)
    ∨ flushed_records W = None.
Proof.
  unfold unguarded_ok.
  rewrite andb_false_iff, forallb_false, bool_decide_eq_false.
  by rewrite <- eq_None_not_Some.
Qed.

(** C4, as amended.  [captureWithHar] raises exactly when one of its steps
    outside the navigation guard fails: launching the browser, creating the
    recording context or its page, closing the context or the browser,
    reading the trace file back, deleting it, parsing it, or finding
    [log.entries] in it.  A target that fails to load is caught: every
    target is still visited once, in list order, nothing is raised for it,
    and the result is the full summary of the flushed trace with the failed
    targets missing from [pagesCrawled] only. *)
Theorem raises_iff_unguarded_step_fails W disk urls options o σ :
  session W disk urls options = (o, σ) →
  ((∃ e, o = Throw e)
   ↔ (∃ c, c ∈ unguarded_calls W options ∧ responds W c = false)
     ∨ flushed_records W = None)
  ∧ ∀ r, o = Return r →
      gotos (calls σ) = urls
      ∧ crawlResult r
        = Some {| pagesCrawled := length urls - failed_targets (calls σ);
                  openApiSource := None |}
      ∧ JSON_parse W (recorded W (destination W)) = Some (har r)
      ∧ requestCount r = length (exchange_records (har r))
      ∧ cookies r = merge_trace ∅ (har r).
Proof.
  intros Hrun. rewrite <- unguarded_ok_false.
  pose proof (wp_session _ _ _ _ _ (captureWithHar_outcome W disk urls options)
                _ _ Hrun) as Hout.
  destruct o as [r|e]; simpl in Hout.
  - destruct Hout as (Hok & Hparse & _ & Hcount & Hcookies & Hcrawl & Hgotos).
    split.
    + split; [intros [? [=]]|congruence].
    + intros ? [= <-]. auto.
  - split; [|intros ? [=]]. split; eauto.
Qed.

(** The second target is unreachable: both targets are visited, nothing is
    raised and one page is counted. *)
Lemma raises_iff_unguarded_step_fails_witness :
  ∃ r σ, session second_unreachable ∅ two_targets sample_options = (Return r, σ)
         ∧ gotos (calls σ) = two_targets
         ∧ failed_targets (calls σ) = 1
         ∧ crawlResult r = Some {| pagesCrawled := 1; openApiSource := None |}.
Proof.
  exists {| har := sample_trace; requestCount := 2; method := "playwright-har";
            crawlResult := Some {| pagesCrawled := 1; openApiSource := None |};
            cookies := <["theme" := "dark"]> (<["sid" := "new"]> ∅) |}.
  exists (session second_unreachable ∅ two_targets sample_options).2.
  assert (Hrun : session second_unreachable ∅ two_targets sample_options
                 = (Return {| har := sample_trace; requestCount := 2;
                              method := "playwright-har";
                              crawlResult := Some {| pagesCrawled := 1;
                                                     openApiSource := None |};
                              cookies := <["theme" := "dark"]> (<["sid" := "new"]> ∅) |},
                    (session second_unreachable ∅ two_targets sample_options).2))
    by (vm_compute; reflexivity).
  destruct (raises_iff_unguarded_step_fails _ _ _ _ _ _ Hrun) as [_ Hres].
  destruct (Hres _ eq_refl) as (Hgotos & _).
  split; [exact Hrun|]. split; [exact Hgotos|].
  split; [vm_compute; reflexivity|reflexivity].
Defined.

(** The claim as stated fails: the browser and the context were acquired,
    the trace was read back and parses, and the session still raises -
    once because deleting the trace file was refused, once because
    [browser.close()] raised. *)
Lemma raises_though_acquired_and_read_back :
  (session unlink_fails ∅ two_targets sample_options).1
  = Throw (Rejected (Unlink "temp_capture_1700000000001.har"))
  ∧ forallb (responds unlink_fails)
      [ Launch (headless sample_options);
        NewContext (destination unlink_fails) (Some userAgent);
        NewPage (destination unlink_fails);
        ReadFile (destination unlink_fails) ] = true
  ∧ flushed_records unlink_fails = Some (exchange_records sample_trace)
  ∧ (session browser_close_fails ∅ two_targets sample_options).1
    = Throw (Rejected CloseBrowser)
  ∧ forallb (responds browser_close_fails)
      [ Launch (headless sample_options);
        NewContext (destination browser_close_fails) (Some userAgent);
        NewPage (destination browser_close_fails);
        ReadFile (destination browser_close_fails) ] = true
  ∧ flushed_records browser_close_fails = Some (exchange_records sample_trace).
Proof. repeat (split; [vm_compute; reflexivity|]). vm_compute; reflexivity. Qed.

(** ** Empty trace *)

(** C8.  If no unguarded step fails and the flushed trace has zero exchange
    records, the session returns, whatever happened to the targets, a
    result with [requestCount = 0] and an empty cookie map. *)
Theorem empty_trace_is_well_formed W disk urls options :
  forallb (responds W) (unguarded_calls W options) = true →
  flushed_records W = Some [] →
  ∃ r σ, session W disk urls options = (Return r, σ)
         ∧ exchange_records (har r) = []
         ∧ requestCount r = 0
         ∧ cookies r = ∅.
Proof.
  intros Hcalls Hempty.
  assert (Hok : unguarded_ok W options = true).
  { unfold unguarded_ok. rewrite Hcalls, Hempty. reflexivity. }
  destruct (session W disk urls options) as [o σ] eqn:Hrun.
  pose proof (wp_session _ _ _ _ _ (captureWithHar_outcome W disk urls options)
                _ _ Hrun) as Hout.
  destruct o as [r|e]; simpl in Hout; [|congruence].
  destruct Hout as (_ & _ & Hrec & Hcount & Hcookies & _).
  rewrite Hempty in Hrec. injection Hrec as Hrec.
  exists r, σ. split; [reflexivity|]. split; [done|]. split.
  - by rewrite Hcount, <- Hrec.
  - rewrite Hcookies. unfold merge_trace. unfold exchange_records in Hrec.
    destruct (HAR.log (har r)) as [l|]; [|done].
    destruct (HAR.entries l) as [es|]; [|done].
    simpl in Hrec. by rewrite <- Hrec.
Qed.

(** Every target is unreachable and the trace is empty. *)
Lemma empty_trace_is_well_formed_witness :
  ∃ r σ, session all_unreachable ∅ two_targets sample_options = (Return r, σ)
         ∧ exchange_records (har r) = []
         ∧ requestCount r = 0
         ∧ cookies r = ∅.
Proof.
  apply (empty_trace_is_well_formed all_unreachable ∅ two_targets sample_options);
    vm_compute; reflexivity.
Defined.

(** ** Teardown *)

(** C3, as amended.  Acquisition and release form one chain - launch,
    recording context, page, [context.close()], [browser.close()] - that
    stops at the first call that raises, and that no navigation outcome
    cuts.  So once the context and its page are acquired the context is
    closed, whatever the targets did, and the browser is closed right after
    a successful context close (context before browser); on a path where
    creating the context or the page, or closing the context, raises, the
    browser is not closed and is left running. *)
Theorem teardown_follows_acquisition W disk urls options :
  lifecycle (calls (session W disk urls options).2)
  = chain (responds W) (lifecycle_calls W options)
  ∧ browser_running (session W disk urls options).2
    = responds W (Launch (headless options))
      && negb (forallb (responds W) (lifecycle_calls W options)).
Proof.
  apply (wp_session W disk urls options (λ _ σ,
           lifecycle (calls σ) = chain (responds W) (lifecycle_calls W options)
           ∧ browser_running σ
             = responds W (Launch (headless options))
               && negb (forallb (responds W) (lifecycle_calls W options)))
           ) with (o := (session W disk urls options).1);
    [|by destruct (session W disk urls options)].
  wp_run W.
  all: unfold lifecycle_calls, destination, capture_time; cbn [chain forallb].
  all: log_project.
  all: repeat match goal with
         | H : responds _ _ = _ |- _ => rewrite H; clear H
         end; cbn [andb negb]; split; reflexivity.
Qed.

(** The claim as stated fails: the browser is launched, creating the
    recording context raises, and the function exits with the browser still
    running and [browser.close()] never called. *)
Lemma browser_left_running :
  (session context_refused ∅ two_targets sample_options).1
  = Throw (Rejected (NewContext "temp_capture_1700000000001.har"
                       (Some userAgent)))
  ∧ lifecycle (calls (session context_refused ∅ two_targets sample_options).2)
    = [ Called (Launch (Some true)) true;
        Called (NewContext "temp_capture_1700000000001.har" (Some userAgent)) false ]
  ∧ browser_running (session context_refused ∅ two_targets sample_options).2 = true.
Proof. split; [|split]; vm_compute; reflexivity. Qed.

(** ** The temporary trace files *)

(** C2, as amended.  When the session returns, or fails only at parsing the
    text it read back, the destination of the capturing context - the file
    [temp_capture_<t>.har] the result is read from - no longer exists. *)
Theorem capture_destination_deleted W disk urls options o σ :
  session W disk urls options = (o, σ) →
  (∃ r, o = Return r) ∨ o = Throw SyntaxError ∨ o = Throw TypeError →
  Called (Unlink (destination W)) true ∈ calls σ
  ∧ files σ !! destination W = None.
Proof.
  intros Hrun.
  refine (wp_session W disk urls options
            (λ o σ, (∃ r, o = Return r) ∨ o = Throw SyntaxError ∨ o = Throw TypeError →
                    Called (Unlink (destination W)) true ∈ calls σ
                    ∧ files σ !! destination W = None)
            _ _ _ Hrun).
  wp_run W.
  all: try (intros [[? [=]]|[[=]|[=]]]; fail).
  all: intros _; unfold destination, capture_time; split;
    [|apply lookup_delete_eq].
  all: repeat (rewrite elem_of_cons || rewrite elem_of_app); auto 20.
Qed.

Lemma capture_destination_deleted_witness :
  ∃ r σ, session calm ∅ two_targets sample_options = (Return r, σ)
         ∧ destination calm = "temp_capture_1700000000001.har"
         ∧ files σ !! "temp_capture_1700000000001.har" = None.
Proof.
  exists {| har := sample_trace; requestCount := 2; method := "playwright-har";
            crawlResult := Some {| pagesCrawled := 2; openApiSource := None |};
            cookies := <["theme" := "dark"]> (<["sid" := "new"]> ∅) |}.
  exists (session calm ∅ two_targets sample_options).2.
  assert (Hrun : session calm ∅ two_targets sample_options
                 = (Return {| har := sample_trace; requestCount := 2;
                              method := "playwright-har";
                              crawlResult := Some {| pagesCrawled := 2;
                                                     openApiSource := None |};
                              cookies := <["theme" := "dark"]> (<["sid" := "new"]> ∅) |},
                    (session calm ∅ two_targets sample_options).2))
    by (vm_compute; reflexivity).
  split; [exact Hrun|]. split; [vm_compute; reflexivity|].
  exact (proj2 (capture_destination_deleted _ _ _ _ _ _ Hrun
                  (or_introl (ex_intro _ _ eq_refl)))).
Defined.

(** The claim as stated fails twice.  A session that returns normally on an
    empty disk leaves behind the two files of its first context,
    [temp_har.har] and [temp_<t>.har]; and a session whose [browser.close()]
    raises leaves the capture destination behind as well. *)
Lemma temporary_traces_left_behind :
  (∃ r, (session calm ∅ two_targets sample_options).1 = Return r)
  ∧ destinations (calls (session calm ∅ two_targets sample_options).2)
    = ["temp_har.har"; "temp_capture_1700000000001.har"]
  ∧ dom (files (session calm ∅ two_targets sample_options).2)
    = {["temp_har.har"; "temp_1700000000000.har"]}
  ∧ (session browser_close_fails ∅ two_targets sample_options).1
    = Throw (Rejected CloseBrowser)
  ∧ "temp_capture_1700000000001.har"
    ∈ dom (files (session browser_close_fails ∅ two_targets sample_options).2).
Proof.
  split; [|split; [|split; [|split]]].
  - eexists. vm_compute. reflexivity.
  - vm_compute. reflexivity.
  - vm_compute. reflexivity.
  - vm_compute. reflexivity.
  - apply (bool_decide_unpack _). vm_compute. exact I.
Qed.

(** ** Trace destinations *)

(** A session asks for at most two recording destinations: the fixed one of
    its first context and the capture destination. *)
Lemma session_destinations W disk urls options p :
  p ∈ destinations (calls (session W disk urls options).2) →
  p = scratch_path ∨ p = destination W.
Proof.
  revert p.
  apply (wp_session W disk urls options (λ _ σ,
           ∀ p, p ∈ destinations (calls σ) → p = scratch_path ∨ p = destination W))
    with (o := (session W disk urls options).1);
    [|by destruct (session W disk urls options)].
  wp_run W.
  all: unfold destination, capture_time; log_project; intros p.
  all: rewrite ?elem_of_app, ?elem_of_cons, ?elem_of_nil; intros Hp.
  all: repeat match type of Hp with _ ∨ _ => destruct Hp as [Hp|Hp] end;
         auto; contradiction.
Qed.

(** C7, as amended.  The recording context that captures the session is
    bound to [temp_capture_<t>.har], where [t] is the [Date.now()] reading
    taken just before it is created; any two sessions whose readings differ
    use distinct capture destinations. *)
Theorem capture_destinations_distinct
    W1 W2 disk1 disk2 urls1 urls2 options1 options2 p1 p2 :
  p1 ∈ destinations (calls (session W1 disk1 urls1 options1).2) →
  p2 ∈ destinations (calls (session W2 disk2 urls2 options2).2) →
  p1 ≠ scratch_path →
  capture_time W1 ≠ capture_time W2 →
  p1 = tempHarPath (capture_time W1) ∧ p1 ≠ p2.
Proof.
  intros [?| ->]%session_destinations Hp2%session_destinations Hp1 Htime; [done|].
  split; [reflexivity|].
  destruct Hp2 as [->| ->]; [done|].
  unfold destination. intros ?%tempHarPath_inj. done.
Qed.

Lemma capture_destinations_distinct_witness :
  "temp_capture_1700000000001.har" = tempHarPath (capture_time calm)
  ∧ "temp_capture_1700000000001.har" ≠ "temp_capture_1700000001000.har".
Proof.
  apply (capture_destinations_distinct calm later ∅ ∅ two_targets two_targets
           sample_options sample_options).
  - apply (bool_decide_unpack _). vm_compute. exact I.
  - apply (bool_decide_unpack _). vm_compute. exact I.
  - discriminate.
  - vm_compute. discriminate.
Defined.

(** The claim as stated fails.  The clocks of [calm] and [later] never show
    the same reading in these sessions, yet the first recording context of
    both is bound to [temp_har.har], a name without any time suffix; and
    [calm] and [second_unreachable], which read the same millisecond, have
    both destinations in common. *)
Lemma destinations_shared_between_sessions :
  capture_time calm ≠ capture_time later
  ∧ destinations (calls (session calm ∅ two_targets sample_options).2)
    = ["temp_har.har"; "temp_capture_1700000000001.har"]
  ∧ destinations (calls (session later ∅ two_targets sample_options).2)
    = ["temp_har.har"; "temp_capture_1700000001000.har"]
  ∧ destinations (calls (session second_unreachable ∅ two_targets sample_options).2)
    = ["temp_har.har"; "temp_capture_1700000000001.har"].
Proof.
  split; [vm_compute; discriminate|].
  split; [|split]; vm_compute; reflexivity.
Qed.

(** ** Cookies *)

Lemma absorb_app m l1 l2 : absorb (absorb m l1) l2 = absorb m (l1 ++ l2).
Proof. unfold absorb. by rewrite foldl_app. Qed.

Lemma absorb_side_cookies m side : absorb_side m side = absorb m (side_cookies side).
Proof. destruct side as [[[cs|]]|]; reflexivity. Qed.

Lemma merge_trace_sequence m doc : merge_trace m doc = absorb m (cookie_sequence doc).
Proof.
  unfold merge_trace, cookie_sequence, exchange_records.
  destruct (HAR.log doc) as [[[es|]]|]; try reflexivity. simpl.
  revert m. induction es as [|entry es IH]; intros m; [reflexivity|].
  simpl. rewrite IH. unfold absorb_entry.
  by rewrite !absorb_side_cookies, !absorb_app, <- app_assoc.
Qed.

Lemma assign_lookup_ne m key value k :
  k ≠ key → assign m key value !! k = m !! k.
Proof.
  intros Hne. unfold assign. destruct (String.eqb key "__proto__"); [done|].
  by apply lookup_insert_ne.
Qed.

Lemma assign_lookup m key value :
  key ≠ "__proto__" → assign m key value !! key = Some value.
Proof.
  intros Hne. unfold assign.
  destruct (String.eqb_spec key "__proto__"); [done|]. apply lookup_insert_eq.
Qed.

Lemma assign_proto m key value :
  assign m key value !! "__proto__" = m !! "__proto__".
Proof.
  unfold assign. destruct (String.eqb_spec key "__proto__") as [->|Hne]; [done|].
  by apply lookup_insert_ne.
Qed.

Lemma assign_union m key value : assign m key value = assign ∅ key value ∪ m.
Proof.
  unfold assign. destruct (String.eqb key "__proto__").
  - by rewrite (left_id_L ∅ (∪)).
  - by rewrite <- insert_union_l, (left_id_L ∅ (∪)).
Qed.

Lemma absorb_lookup_other m l k :
  k ∉ HAR.name <$> l → absorb m l !! k = m !! k.
Proof.
  revert m. induction l as [|c l IH]; intros m Hk; [reflexivity|].
  simpl in *. apply not_elem_of_cons in Hk as [Hne Hk].
  rewrite IH by done. by apply assign_lookup_ne.
Qed.

Lemma absorb_last m l1 c l2 :
  HAR.name c ∉ HAR.name <$> l2 →
  HAR.name c ≠ "__proto__" →
  absorb m (l1 ++ c :: l2) !! HAR.name c = Some (HAR.value c).
Proof.
  intros Hlast Hname. rewrite <- absorb_app. simpl.
  rewrite absorb_lookup_other by done. by apply assign_lookup.
Qed.

Lemma absorb_proto m l : absorb m l !! "__proto__" = m !! "__proto__".
Proof.
  revert m. induction l as [|c l IH]; intros m; [reflexivity|].
  simpl. rewrite IH. apply assign_proto.
Qed.

Lemma absorb_union m l : absorb m l = absorb ∅ l ∪ m.
Proof.
  revert m. induction l as [|c l IH]; intros m.
  - simpl. by rewrite (left_id_L ∅ (∪)).
  - simpl. rewrite IH, (IH (assign ∅ _ _)).
    rewrite <- (assoc_L (∪)). f_equal. apply assign_union.
Qed.

Lemma absorb_idempotent m l : absorb (absorb m l) l = absorb m l.
Proof.
  rewrite (absorb_union (absorb m l)), (absorb_union m).
  by rewrite (assoc_L (∪)), (idemp_L (∪)).
Qed.

(** C6 fails on the code for a cookie named [__proto__].  In
    [proto_trace] the request sends [__proto__=early] and the response
    then sets [__proto__=late] and [sid=abc].  Merged by name with the
    later value winning, the aggregate would map [__proto__] to [late];
    the session returns a map that has no entry of that name at all - the
    response cookie overwrites nothing - and holds [sid] alone. *)
Theorem proto_cookie_is_not_merged :
  ∃ r σ, session proto_world ∅ ["https://example.com"] sample_options
         = (Return r, σ)
         ∧ cookie_sequence (har r)
           = [cookie "__proto__" "early"; cookie "__proto__" "late";
              cookie "sid" "abc"]
         ∧ cookies r !! "__proto__" = None
         ∧ cookies r = {["sid" := "abc"]}.
Proof.
  exists {| har := proto_trace; requestCount := 1; method := "playwright-har";
            crawlResult := Some {| pagesCrawled := 1; openApiSource := None |};
            cookies := <["sid" := "abc"]> ∅ |}.
  exists (session proto_world ∅ ["https://example.com"] sample_options).2.
  split; [vm_compute; reflexivity|].
  split; [reflexivity|]. split; reflexivity.
Qed.

(** ** Options the function does not read *)

Lemma bind_ext {A B} (m : M A) (f g : A → M B) σ :
  (∀ a σ', f a σ' = g a σ') → (m ≫= f) σ = (m ≫= g) σ.
Proof.
  intros Hfg. unfold mbind, M_bind. destruct (m σ) as [[a|e] σ']; auto.
Qed.

Section Extensionality.
Context (W : World) (o1 o2 : CaptureOptions).
Hypothesis Hwait : truthy (waitMs o1) = truthy (waitMs o2).
Hypothesis Hheadless : headless o1 = headless o2.

Lemma visit_ext i url n : visit W o1 i url n = visit W o2 i url n.
Proof. unfold visit. by rewrite Hwait. Qed.

Lemma visit_all_ext urls : ∀ i n σ,
  visit_all W o1 urls i n σ = visit_all W o2 urls i n σ.
Proof.
  induction urls as [|url rest IH]; intros i n σ; [reflexivity|].
  cbn [visit_all]. rewrite visit_ext. by apply bind_ext.
Qed.

(** The function reads [headless] and the truth value of [waitMs], and
    nothing else of its options. *)
Lemma captureWithHar_ext urls σ :
  captureWithHar W urls o1 σ = captureWithHar W urls o2 σ.
Proof.
  unfold captureWithHar. rewrite Hheadless.
  do 5 (apply bind_ext; intros ? ?).
  unfold mbind at 1 3, M_bind at 1 3. by rewrite visit_all_ext.
Qed.
End Extensionality.

(** C9.  Two invocations on the same targets whose options agree on
    [waitMs] and [headless] return the same result and act on the world in
    the same way, whatever their [crawl], [crawlOptions] and [userDataDir]
    are. *)
Theorem unread_options_do_not_matter W disk urls options1 options2 :
  waitMs options1 = waitMs options2 →
  headless options1 = headless options2 →
  session W disk urls options1 = session W disk urls options2.
Proof.
  intros Hwait Hheadless. unfold session.
  apply captureWithHar_ext; [by rewrite Hwait|done].
Qed.

Lemma unread_options_do_not_matter_witness :
  session calm ∅ two_targets sample_options
  = session calm ∅ two_targets
      {| waitMs := Some 0%Z; headless := Some true; crawl := Some true;
         crawlOptions := Some {| maxPages := 10; discoverOpenApi := true |};
         userDataDir := Some "/home/user/.profile-dir" |}.
Proof.
  apply (unread_options_do_not_matter calm ∅ two_targets sample_options);
    reflexivity.
Defined.

(** C10.  With [waitMs] equal to [0] the session returns the same result
    and acts on the world in the same way as with [waitMs] absent, and in
    both [page.waitForTimeout] is never called. *)
Theorem zero_wait_is_no_wait W disk urls options :
  session W disk urls (with_waitMs (Some 0%Z) options)
  = session W disk urls (with_waitMs None options)
  ∧ pauses (calls (session W disk urls (with_waitMs None options)).2) = [].
Proof.
  split; [by apply captureWithHar_ext|].
  destruct (session W disk urls (with_waitMs None options)) as [o σ] eqn:Hrun.
  by eapply session_without_pauses.
Qed.

(** * Further properties *)

(** ** More of the session *)

Lemma goto_failures_app l1 l2 :
  goto_failures (l1 ++ l2) = goto_failures l1 + goto_failures l2.
Proof.
  induction l1 as [|e l1 IH]; [reflexivity|].
  destruct e as [[] []| | |]; simpl; rewrite ?IH; reflexivity.
Qed.

Section LoopTranscript.
Context (W : World) (options : CaptureOptions).

Lemma visit_transcript i url n σ :
  ∃ n' evs,
    visit W options i url n σ = (Return n', extend evs σ)
    ∧ visited options [url] n n' evs
    ∧ transcript options [url] evs.
Proof.
  unfold visit, try_catch, console_log, console_error, goto, waitForTimeout,
    invoke, effect, mbind, M_bind, mret, M_ret, visited, transcript,
    gotos, pauses, announced, reported.
  cbn beta iota.
  destruct (responds W (Goto i url)) eqn:Hgo.
  - destruct (truthy (waitMs options)) as [ms|].
    + destruct (responds W (WaitForTimeout i ms)) eqn:Hpause.
      * exists (S n), [ConsoleLog url; Called (Goto i url) true;
                       Called (WaitForTimeout i ms) true].
        unfold extend, note; simpl. rewrite <- !app_assoc. simpl.
        repeat split; try lia; try done;
          try (intros ? ->%list_elem_of_singleton; reflexivity).
        apply sublist_nil_l.
      * exists n, [ConsoleLog url; Called (Goto i url) true;
                   Called (WaitForTimeout i ms) false; ConsoleError url].
        unfold extend, note; simpl. rewrite <- !app_assoc. simpl.
        repeat split; try lia; try done.
        intros ? ->%list_elem_of_singleton. reflexivity.
    + exists (S n), [ConsoleLog url; Called (Goto i url) true].
      unfold extend, note; simpl. rewrite <- !app_assoc. simpl.
      repeat split; try lia; try done;
        try (intros ? []%elem_of_nil); try (intros [? [=]]).
      apply sublist_nil_l.
  - exists n, [ConsoleLog url; Called (Goto i url) false; ConsoleError url].
    unfold extend, note; simpl. rewrite <- !app_assoc. simpl.
    repeat split; try lia; try done.
    intros ? []%elem_of_nil.
Qed.

Lemma visit_all_transcript urls : ∀ i n σ,
  ∃ n' evs,
    visit_all W options urls i n σ = (Return n', extend evs σ)
    ∧ visited options urls n n' evs
    ∧ transcript options urls evs.
Proof.
  induction urls as [|url rest IH]; intros i n σ.
  - exists n, []. unfold extend, visited, transcript; simpl. rewrite app_nil_r.
    destruct σ; repeat split; simpl; try lia; try done.
    intros ? []%elem_of_nil.
  - destruct (visit_transcript i url n σ)
      as (n1 & evs1 & Hrun1 & (Hpage1 & Hgo1 & Hcount1 & Hpause1)
          & (Hann1 & Hrep1 & Hsub1 & Hlen1)).
    destruct (IH (S i) n1 (extend evs1 σ))
      as (n2 & evs2 & Hrun2 & (Hpage2 & Hgo2 & Hcount2 & Hpause2)
          & (Hann2 & Hrep2 & Hsub2 & Hlen2)).
    exists n2, (evs1 ++ evs2). split; [|split; repeat split].
    + change (visit_all W options (url :: rest) i n σ)
        with (match visit W options i url n σ with
              | (Return a, σ') => visit_all W options rest (S i) a σ'
              | (Throw e, σ') => (Throw e, σ')
              end).
      rewrite Hrun1, Hrun2, extend_extend. reflexivity.
    + rewrite forallb_app, Hpage1, Hpage2. reflexivity.
    + unfold gotos in *. rewrite omap_app, Hgo1, Hgo2. reflexivity.
    + rewrite failed_targets_app. simpl in *. lia.
    + unfold pauses in *. intros ms. rewrite omap_app, elem_of_app.
      intros [?|?]; auto.
    + unfold announced in *. rewrite omap_app, Hann1, Hann2. reflexivity.
    + unfold reported in *.
      rewrite omap_app, length_app, failed_targets_app. lia.
    + unfold reported in *. rewrite omap_app.
      change (url :: rest) with ([url] ++ rest). by apply sublist_app.
    + intros Hsome. specialize (Hlen1 Hsome). specialize (Hlen2 Hsome).
      unfold pauses in *. rewrite omap_app, length_app, goto_failures_app.
      simpl in *. lia.
Qed.
End LoopTranscript.

Lemma wp_visit_all_transcript W options urls i n σ Q :
  (∀ n' evs, visited options urls n n' evs → transcript options urls evs →
     Q (Return n') (extend evs σ)) →
  wp (visit_all W options urls i n) σ Q.
Proof.
  intros HQ. unfold wp.
  destruct (visit_all_transcript W options urls i n σ) as (n' & evs & -> & ? & ?).
  simpl. auto.
Qed.

Lemma wp_first_attempt_frame W σ Q :
  (∀ sevs F R,
     forallb scratch_event sevs = true →
     (∀ p, p ≠ scratch_path →
           p ≠ "temp_" +:+ pretty (clock W (ticks σ)) +:+ ".har" →
           F !! p = files σ !! p) →
     Q (Return tt)
       {| calls := calls σ ++ sevs; files := F;
          browser_running := browser_running σ; recorders := R;
          ticks := ticks σ + scratch_ticks W |}) →
  wp (first_attempt W) σ Q.
Proof.
  intros HQ. unfold scratch_ticks in HQ. unfold first_attempt.
  wp_walk W.
  all: repeat match goal with
       | H : responds _ (NewContext scratch_path None) = _ |- _ =>
           rewrite H, ?Nat.add_0_r, ?Nat.add_1_r in HQ; clear H
       end.
  all: wp_host; rewrite <- ?app_assoc; cbn [app]; apply HQ; [reflexivity|].
  all: intros p Hp1 Hp2; rewrite ?lookup_insert_ne by done; reflexivity.
Qed.

Ltac wp_step_full W :=
  wp_unfold; cbn beta iota; wp_host;
  lazymatch goal with
  | |- wp (first_attempt _) _ _ =>
      apply (wp_first_attempt_frame W); intros ? ? ? ? ?
  | |- wp (visit_all _ _ _ _ _) _ _ =>
      apply (wp_visit_all_transcript W);
      intros ? ? (? & ? & ? & ?) (? & ? & ? & ?)
  | |- _ => wp_head W
  end.

Ltac wp_run_full W :=
  unfold captureWithHar; repeat wp_step_full W; wp_host;
  rewrite <- ?app_assoc; cbn [app].

(** X1.  Whatever the outcome, a session changes no file other than its
    three temporary ones: [temp_har.har], [temp_<t0>.har] and
    [temp_capture_<t>.har]. *)
Theorem session_touches_only_its_temporary_files W disk urls options p :
  p ≠ scratch_path → p ≠ update_path W → p ≠ destination W →
  files (session W disk urls options).2 !! p = disk !! p.
Proof.
  intros Hp1 Hp2 Hp3.
  apply (wp_session W disk urls options (λ _ σ, files σ !! p = disk !! p))
    with (o := (session W disk urls options).1);
    [|by destruct (session W disk urls options)].
  unfold update_path, destination, capture_time in *.
  wp_run_full W.
  all: rewrite ?lookup_delete_ne, ?lookup_insert_ne by done; auto.
Qed.

Lemma scratch_event_quiet e :
  scratch_event e = true → announced_target e = None ∧ reported_target e = None.
Proof. destruct e as [[? | ? [] | | | | | | | | ] ?| | |]; simpl; done. Qed.

Lemma announced_scratch sevs : forallb scratch_event sevs = true → announced sevs = [].
Proof. apply omap_ruled_out. intros e He. by apply scratch_event_quiet. Qed.

Lemma reported_scratch sevs : forallb scratch_event sevs = true → reported sevs = [].
Proof. apply omap_ruled_out. intros e He. by apply scratch_event_quiet. Qed.

Lemma goto_failures_scratch sevs :
  forallb scratch_event sevs = true → goto_failures sevs = 0.
Proof.
  induction sevs as [|e sevs IH]; [reflexivity|].
  intros [He Hs]%andb_prop.
  destruct e as [[? | ? [] | | | | | | | | ] []| | |]; simpl in *; auto; discriminate.
Qed.

Lemma announced_app l1 l2 : announced (l1 ++ l2) = announced l1 ++ announced l2.
Proof. apply omap_app. Qed.

Lemma reported_app l1 l2 : reported (l1 ++ l2) = reported l1 ++ reported l2.
Proof. apply omap_app. Qed.

Lemma announced_cons e l : announced (e :: l) = announced [e] ++ announced l.
Proof. apply (announced_app [e]). Qed.

Lemma reported_cons e l : reported (e :: l) = reported [e] ++ reported l.
Proof. apply (reported_app [e]). Qed.

Lemma goto_failures_cons e l :
  goto_failures (e :: l) = goto_failures [e] + goto_failures l.
Proof. apply (goto_failures_app [e]). Qed.

Ltac log_split_full :=
  log_split;
  repeat match goal with
         | |- context [announced (?e :: ?l)] =>
             lazymatch l with [] => fail | _ => rewrite (announced_cons e l) end
         | |- context [reported (?e :: ?l)] =>
             lazymatch l with [] => fail | _ => rewrite (reported_cons e l) end
         | |- context [goto_failures (?e :: ?l)] =>
             lazymatch l with [] => fail | _ => rewrite (goto_failures_cons e l) end
         | |- _ => rewrite announced_app
         | |- _ => rewrite reported_app
         | |- _ => rewrite goto_failures_app
         end.

Ltac log_project_full :=
  log_split_full; log_drop;
  repeat match goal with
         | H : forallb scratch_event ?s = true |- _ =>
             first [ rewrite (announced_scratch s H) | rewrite (reported_scratch s H)
                   | rewrite (goto_failures_scratch s H) ]
         end;
  cbn [gotos pauses lifecycle destinations failed_targets goto_failures
       announced reported announced_target reported_target
       omap list_omap goto_target pause_length lifecycle_call
       recording_destination failed_load app Nat.add length];
  rewrite ?tempHarPath_not_scratch; cbn [app].

Lemma all_equal_replicate {A} (l : list A) (x : A) :
  (∀ y, y ∈ l → y = x) → l = replicate (length l) x.
Proof.
  induction l as [|a l IH]; intros Hall; [reflexivity|]. simpl.
  rewrite (Hall a) by constructor. f_equal. apply IH.
  intros y Hy. apply Hall. by constructor.
Qed.

(** X2.  In a session that returns, every target is announced on the
    console once, in list order; the targets reported as failed are some of
    the targets, in list order, and [pagesCrawled] is the number of targets
    less the number of failure reports. *)
Theorem failed_targets_are_reported W disk urls options r σ :
  session W disk urls options = (Return r, σ) →
  announced (calls σ) = urls
  ∧ reported (calls σ) `sublist_of` urls
  ∧ crawlResult r
    = Some {| pagesCrawled := length urls - length (reported (calls σ));
              openApiSource := None |}.
Proof.
  intros Hrun.
  refine (wp_session W disk urls options
            (λ o σ, ∀ r, o = Return r →
               announced (calls σ) = urls
               ∧ reported (calls σ) `sublist_of` urls
               ∧ crawlResult r
                 = Some {| pagesCrawled := length urls - length (reported (calls σ));
                           openApiSource := None |})
            _ _ _ Hrun r eq_refl).
  wp_run_full W; intros ? [= <-]; cbn [crawlResult calls].
  log_project_full. rewrite !app_nil_r.
  split; [done|]. split; [done|]. do 2 f_equal. lia.
Qed.

(** X3.  With a non-zero [waitMs], a session that returns has paused once
    after every [page.goto] that resolved and never otherwise, each time
    for [waitMs] milliseconds. *)
Theorem pause_after_each_loaded_page W disk urls options r σ ms :
  session W disk urls options = (Return r, σ) →
  truthy (waitMs options) = Some ms →
  pauses (calls σ) = replicate (length urls - goto_failures (calls σ)) ms.
Proof.
  intros Hrun Hms.
  refine (wp_session W disk urls options
            (λ o σ, ∀ r, o = Return r →
               pauses (calls σ)
               = replicate (length urls - goto_failures (calls σ)) ms)
            _ _ _ Hrun r eq_refl).
  wp_run_full W; intros ? [= <-]; cbn [calls].
  log_project_full. rewrite !app_nil_r.
  match goal with
  | Hall : ∀ ms, ms ∈ pauses ?evs → _, Hlen : is_Some _ → _ |- _ =>
      rewrite (all_equal_replicate (pauses evs) ms)
        by (intros y Hy; specialize (Hall y Hy); congruence);
      f_equal; specialize (Hlen (ex_intro _ ms Hms)); lia
  end.
Qed.

(** ** The aggregate of the cookies *)

(** X19.  The cookie map of a returned result is the left-to-right merge
    of the cookies of the trace - exchange records in trace order, within
    a record the request side and then the response side.  A name other
    than [__proto__] has the value of its last occurrence, whichever side
    that is on; a name that does not occur has no entry; [__proto__] never
    has an entry, whatever the trace holds; and merging the same trace
    again, into the result or into any map, changes nothing. *)
Theorem named_cookies_keep_their_last_value W disk urls options r σ :
  session W disk urls options = (Return r, σ) →
  cookies r = absorb ∅ (cookie_sequence (har r))
  ∧ (∀ before c after,
       cookie_sequence (har r) = before ++ c :: after →
       HAR.name c ∉ HAR.name <$> after →
       HAR.name c ≠ "__proto__" →
       cookies r !! HAR.name c = Some (HAR.value c))
  ∧ (∀ k, k ∉ HAR.name <$> cookie_sequence (har r) → cookies r !! k = None)
  ∧ cookies r !! "__proto__" = None
  ∧ merge_trace (cookies r) (har r) = cookies r
  ∧ ∀ m, merge_trace (merge_trace m (har r)) (har r) = merge_trace m (har r).
Proof.
  intros Hrun.
  pose proof (wp_session _ _ _ _ _ (captureWithHar_outcome W disk urls options)
                _ _ Hrun) as (_ & _ & _ & _ & Hcookies & _).
  rewrite merge_trace_sequence in Hcookies.
  split; [exact Hcookies|]. split; [|split; [|split; [|split]]].
  - intros before c after Hseq Hlast Hname. rewrite Hcookies, Hseq.
    by apply absorb_last.
  - intros k Hk. rewrite Hcookies, absorb_lookup_other by done.
    apply lookup_empty.
  - rewrite Hcookies, absorb_proto. apply lookup_empty.
  - rewrite merge_trace_sequence, Hcookies. apply absorb_idempotent.
  - intros m. rewrite !merge_trace_sequence. apply absorb_idempotent.
Qed.

(** ** Arguments of the runner *)

Section ArgsFacts.
Context {num : Type} (Number : string → option num).

Lemma getValue_app rest post inline x :
  CLI.getValue rest inline = inr x → CLI.getValue (rest ++ post) inline = inr x.
Proof.
  unfold CLI.getValue. destruct inline as [v|]; [done|].
  destruct rest as [|next rest]; [done|]. simpl. done.
Qed.

Lemma getValue_taken rest inline v :
  CLI.getValue rest inline = inr (v, true) → ∃ rest', rest = v :: rest'.
Proof.
  unfold CLI.getValue. destruct inline as [?|]; [intros [=]|].
  destruct rest as [|next rest]; [done|].
  destruct (_ || _); intros [= <-]; eauto.
Qed.

Lemma apply_flag_app flag inline rest post o x :
  CLI.apply_flag Number flag inline rest o = inr x →
  CLI.apply_flag Number flag inline (rest ++ post) o = inr x.
Proof.
  unfold CLI.apply_flag.
  repeat match goal with
         | |- context [if ?b then _ else _] => destruct b
         end; try done.
  all: destruct (CLI.getValue rest inline) as [e|[v taken]] eqn:Hget; [done|].
  all: by rewrite (getValue_app _ post _ _ Hget).
Qed.

Lemma apply_flag_taken flag inline rest o o' :
  CLI.apply_flag Number flag inline rest o = inr (o', true) → ∃ v rest', rest = v :: rest'.
Proof.
  unfold CLI.apply_flag.
  repeat match goal with
         | |- context [if ?b then _ else _] => destruct b
         end; try done.
  all: destruct (CLI.getValue rest inline) as [e|[v taken]] eqn:Hget; [done|].
  all: try destruct (Number v); try (intros [=]; fail); intros [= _ ->].
  all: apply getValue_taken in Hget as [? ->]; eauto.
Qed.

Lemma parse_from_app_bounded n : ∀ pre post urls o urls' o',
  length pre ≤ n →
  CLI.parse_from Number pre urls o = inr (urls', o') →
  CLI.parse_from Number (pre ++ post) urls o = CLI.parse_from Number post urls' o'.
Proof.
  induction n as [|n IH]; intros pre post urls o urls' o' Hlen.
  - destruct pre; [|simpl in Hlen; lia]. by intros [= <- <-].
  - destruct pre as [|arg rest]; [by intros [= <- <-]|].
    simpl in Hlen. cbn [CLI.parse_from app].
    destruct (negb (startsWith arg "-")).
    + apply IH. lia.
    + destruct (CLI.apply_flag Number (CLI.flag_of arg) (CLI.inlineValue_of arg) rest o)
        as [e|[o1 taken]] eqn:Hflag; [done|].
      rewrite (apply_flag_app _ _ _ post _ _ Hflag).
      destruct taken.
      * apply apply_flag_taken in Hflag as (v & rest' & ->).
        cbn [app]. apply IH. simpl in Hlen. lia.
      * apply IH. lia.
Qed.

Lemma parse_from_app pre post urls o urls' o' :
  CLI.parse_from Number pre urls o = inr (urls', o') →
  CLI.parse_from Number (pre ++ post) urls o = CLI.parse_from Number post urls' o'.
Proof. by apply (parse_from_app_bounded (length pre)). Qed.
End ArgsFacts.

Section ArgsTheorems.
Context {num : Type} (Number : string → option num).

Lemma parse_from_positional more : ∀ urls o,
  Forall positional more →
  CLI.parse_from Number more urls o = inr (urls ++ more, o).
Proof.
  induction more as [|arg more IH]; intros urls o Hall.
  - by rewrite app_nil_r.
  - inversion Hall as [|? ? Harg Hmore]; subst. cbn [CLI.parse_from].
    rewrite Harg. cbn [negb]. rewrite IH by done. by rewrite <- app_assoc.
Qed.

(** X4.  Positional arguments after a command line that parses are added
    to its URLs, in order, and leave its options as they are; with nothing
    before them, they are the URLs and the options are the defaults. *)
Theorem urls_may_follow_options pre more urls o :
  CLI.parseArgs Number pre = inr (urls, o) →
  Forall positional more →
  CLI.parseArgs Number (pre ++ more) = inr (urls ++ more, o).
Proof.
  unfold CLI.parseArgs. intros Hpre Hmore.
  rewrite (parse_from_app _ _ _ _ _ _ _ Hpre). by apply parse_from_positional.
Qed.

(** X5.  For the options that take a value, [--flag=value] and
    [--flag value] are the same, when the value is not empty and does not
    begin with a dash. *)
Theorem inline_value_is_separate_value pre flag v post urls o :
  CLI.parseArgs Number pre = inr (urls, o) →
  flag ∈ value_flags →
  v ≠ "" → positional v →
  CLI.parseArgs Number (pre ++ (flag +:+ "=" +:+ v) :: post)
  = CLI.parseArgs Number (pre ++ flag :: v :: post).
Proof.
  unfold CLI.parseArgs, positional. intros Hpre Hflag Hv Hpos.
  rewrite !(parse_from_app _ _ _ _ _ _ _ Hpre).
  assert (Hne : String.eqb v "" = false) by by apply String.eqb_neq.
  unfold value_flags in Hflag.
  repeat (apply elem_of_cons in Hflag as [->|Hflag]);
    [..|by apply elem_of_nil in Hflag].
  all: cbv [String.append]; cbn [CLI.parse_from]; simpl;
    unfold CLI.apply_flag, CLI.flag_of, CLI.inlineValue_of; simpl;
    rewrite Hne, Hpos; simpl; destruct (Number v); reflexivity.
Qed.

(** X6.  An option that takes a value and is last, or is followed by an
    empty argument or by one that begins with a dash (a negative number,
    for one), is refused with [Missing value for option]. *)
Theorem value_must_follow pre flag post urls o :
  CLI.parseArgs Number pre = inr (urls, o) →
  flag ∈ value_flags →
  (post = [] ∨ ∃ next rest, post = next :: rest ∧ (next = "" ∨ startsWith next "-" = true)) →
  CLI.parseArgs Number (pre ++ flag :: post) = inl "Missing value for option".
Proof.
  unfold CLI.parseArgs. intros Hpre Hflag Hpost.
  rewrite (parse_from_app _ _ _ _ _ _ _ Hpre).
  assert (Hget : CLI.getValue post None = inl "Missing value for option").
  { destruct Hpost as [->|(next & rest & -> & [->|Hdash])]; [done|done|].
    simpl. rewrite Hdash, orb_true_r. done. }
  unfold value_flags in Hflag.
  repeat (apply elem_of_cons in Hflag as [->|Hflag]);
    [..|by apply elem_of_nil in Hflag].
  all: cbn [CLI.parse_from]; unfold CLI.apply_flag;
    change (CLI.inlineValue_of _) with (@None string);
    rewrite Hget; reflexivity.
Qed.

(** X7.  An argument that begins with a dash and whose text before the
    first [=] is not one of the ten options is refused, and the message
    names that text. *)
Theorem unknown_option_rejected pre arg post urls o :
  CLI.parseArgs Number pre = inr (urls, o) →
  startsWith arg "-" = true →
  CLI.flag_of arg ∉ value_flags ++ toggle_flags →
  CLI.parseArgs Number (pre ++ arg :: post)
  = inl ("Unknown option: " +:+ CLI.flag_of arg).
Proof.
  unfold CLI.parseArgs. intros Hpre Hdash Hunknown.
  rewrite (parse_from_app _ _ _ _ _ _ _ Hpre).
  cbn [CLI.parse_from]. rewrite Hdash. cbn [negb].
  unfold CLI.apply_flag.
  repeat match goal with
         | |- context [String.eqb (CLI.flag_of arg) ?f] =>
             let H := fresh in
             destruct (String.eqb (CLI.flag_of arg) f) eqn:H;
             [apply String.eqb_eq in H; exfalso; apply Hunknown; rewrite H;
              unfold value_flags, toggle_flags; simpl;
              repeat (first [apply list_elem_of_here | apply list_elem_of_further])|]
         end.
  reflexivity.
Qed.

(** X8.  The four switches ignore a value given with [=]: [--headless=false]
    turns headless mode on like [--headless]. *)
Theorem toggle_ignores_inline_value pre flag x post urls o :
  CLI.parseArgs Number pre = inr (urls, o) →
  flag ∈ toggle_flags →
  CLI.parseArgs Number (pre ++ (flag +:+ "=" +:+ x) :: post)
  = CLI.parseArgs Number (pre ++ flag :: post).
Proof.
  unfold CLI.parseArgs. intros Hpre Hflag.
  rewrite !(parse_from_app _ _ _ _ _ _ _ Hpre).
  unfold toggle_flags in Hflag.
  repeat (apply elem_of_cons in Hflag as [->|Hflag]);
    [..|by apply elem_of_nil in Hflag].
  all: cbv [String.append]; cbn [CLI.parse_from]; simpl;
    unfold CLI.apply_flag, CLI.flag_of, CLI.inlineValue_of; simpl; reflexivity.
Qed.
End ArgsTheorems.

Section ArgsInvariant.
Context {num : Type} (Number : string → option num).

Lemma apply_flag_keeps flag inline rest o o' taken :
  CLI.apply_flag Number flag inline rest o = inr (o', taken) →
  (is_Some (CLI.headless o) → is_Some (CLI.headless o'))
  ∧ (is_Some (CLI.crawl o) → is_Some (CLI.crawl o')).
Proof.
  unfold CLI.apply_flag.
  repeat match goal with
         | |- context [if ?b then _ else _] => destruct b
         end; try done.
  all: try (destruct (CLI.getValue rest inline) as [e|[v t]]; [done|]).
  all: try destruct (Number v); try (intros [=]; fail).
  all: intros [= <- _]; simpl; eauto.
Qed.

Lemma parse_from_invariant n : ∀ argv urls o urls' o',
  length argv ≤ n →
  CLI.parse_from Number argv urls o = inr (urls', o') →
  ∃ more, urls' = urls ++ more
          ∧ more `sublist_of` argv
          ∧ Forall positional more
          ∧ (is_Some (CLI.headless o) → is_Some (CLI.headless o'))
          ∧ (is_Some (CLI.crawl o) → is_Some (CLI.crawl o')).
Proof.
  induction n as [|n IH]; intros argv urls o urls' o' Hlen.
  - destruct argv; [|simpl in Hlen; lia]. intros [= <- <-].
    exists []. rewrite app_nil_r. repeat split; auto.
  - destruct argv as [|arg rest].
    { intros [= <- <-]. exists []. rewrite app_nil_r. repeat split; auto. }
    simpl in Hlen. cbn [CLI.parse_from].
    destruct (negb (startsWith arg "-")) eqn:Harg.
    + intros (more & -> & Hsub & Hpos & Hh & Hc)%IH; [|lia].
      exists (arg :: more). rewrite <- app_assoc. repeat split; auto.
      * by apply sublist_skip.
      * constructor; [|done]. by apply negb_true_iff in Harg.
    + destruct (CLI.apply_flag Number (CLI.flag_of arg) (CLI.inlineValue_of arg) rest o)
        as [e|[o1 taken]] eqn:Hflag; [done|].
      destruct (apply_flag_keeps _ _ _ _ _ _ Hflag) as [Hh1 Hc1].
      destruct taken.
      * destruct rest as [|v rest'].
        { intros [= <- <-]. exists []. rewrite app_nil_r.
          repeat split; auto. apply sublist_nil_l. }
        simpl in Hlen.
        intros (more & -> & Hsub & Hpos & Hh & Hc)%IH; [|lia].
        exists more. repeat split; auto. by do 2 apply sublist_cons.
      * intros (more & -> & Hsub & Hpos & Hh & Hc)%IH; [|lia].
        exists more. repeat split; auto. by apply sublist_cons.
Qed.

(** X9.  When [parseArgs] returns, its URLs are arguments of the command
    line, in their order, none of which begins with a dash, and [headless]
    and [crawl] are both set. *)
Theorem parsed_arguments_are_well_formed argv urls o :
  CLI.parseArgs Number argv = inr (urls, o) →
  urls `sublist_of` argv
  ∧ Forall positional urls
  ∧ is_Some (CLI.headless o)
  ∧ is_Some (CLI.crawl o).
Proof.
  intros (more & -> & Hsub & Hpos & Hh & Hc)%(parse_from_invariant (length argv));
    [|done].
  simpl. split; [done|]. split; [done|].
  split; [apply Hh|apply Hc]; simpl; eauto.
Qed.
End ArgsInvariant.

Section ArgsMore.
Context {num : Type} (Number : string → option num).

Lemma getValue_taken_positional rest inline v :
  CLI.getValue rest inline = inr (v, true) →
  ∃ rest', rest = v :: rest' ∧ startsWith v "-" = false.
Proof.
  unfold CLI.getValue. destruct inline as [?|]; [intros [=]|].
  destruct rest as [|next rest]; [done|].
  destruct (String.eqb next "") eqn:E1; [done|].
  destruct (startsWith next "-") eqn:E2; [done|].
  intros [= <-]. eauto.
Qed.

Lemma apply_flag_taken_positional flag inline rest o o' :
  CLI.apply_flag Number flag inline rest o = inr (o', true) →
  ∃ v rest', rest = v :: rest' ∧ startsWith v "-" = false.
Proof.
  unfold CLI.apply_flag.
  repeat match goal with
         | |- context [if ?b then _ else _] => destruct b
         end; try done.
  all: destruct (CLI.getValue rest inline) as [e|[v taken]] eqn:Hget; [done|].
  all: try destruct (Number v); try (intros [=]; fail); intros [= _ ->].
  all: apply getValue_taken_positional in Hget as (? & -> & ?); eauto.
Qed.

Lemma parse_from_dashed n : ∀ argv urls o,
  length argv ≤ n → Forall dashed argv →
  match CLI.parse_from Number argv urls o with
  | inl _ => True
  | inr (urls', _) => urls' = urls
  end.
Proof.
  induction n as [|n IH]; intros argv urls o Hlen Hall.
  - destruct argv; [done|simpl in Hlen; lia].
  - destruct argv as [|arg rest]; [done|].
    inversion Hall as [|? ? Harg Hrest]; subst. simpl in Hlen.
    cbn [CLI.parse_from]. unfold dashed in Harg. rewrite Harg. cbn [negb].
    destruct (CLI.apply_flag Number (CLI.flag_of arg) (CLI.inlineValue_of arg) rest o)
      as [e|[o1 taken]] eqn:Hflag; [done|].
    destruct taken.
    + apply apply_flag_taken_positional in Hflag as (v & rest' & -> & Hv).
      inversion Hrest as [|? ? Hdash ?]; subst. unfold dashed in Hdash. congruence.
    + apply IH; [lia|done].
Qed.
End ArgsMore.

Section MainFacts.
Context (Number : string → option Z) (W : World) (sh : Shell).

(** X10.  On a command line on which every argument begins with a dash,
    [main] exits with status 1 and has called nothing: no browser, no
    clock, no file. *)
Theorem options_alone_start_no_capture argv disk :
  Forall dashed argv →
  status (main Number W sh argv disk) = 1
  ∧ host (main Number W sh argv disk) = boot disk.
Proof.
  intros Hall. unfold main, CLI.parseArgs.
  pose proof (parse_from_dashed Number (length argv) argv [] CLI.defaults
                (le_n _) Hall) as Hparse.
  destruct (CLI.parse_from Number argv [] CLI.defaults) as [msg|[urls o]]; [done|].
  subst urls. done.
Qed.
End MainFacts.

(** ** The runner *)

Section MainMore.
Context (Number : string → option Z) (W : World) (sh : Shell).

Lemma apply_flag_same flag inline rest o1 o2 :
  same_capture o1 o2 →
  match CLI.apply_flag Number flag inline rest o1,
        CLI.apply_flag Number flag inline rest o2 with
  | inl e1, inl e2 => e1 = e2
  | inr (o1', t1), inr (o2', t2) => t1 = t2 ∧ same_capture o1' o2'
  | _, _ => False
  end.
Proof.
  intros (Hw & Hh & Hc & Ho). unfold CLI.apply_flag.
  repeat match goal with
         | |- context [if ?b then _ else _] => destruct b
         end; try done.
  all: try (destruct (CLI.getValue rest inline) as [e|[v t]]; [done|]).
  all: try destruct (Number v); try done.
  all: split; [done|]; unfold same_capture; simpl; auto.
Qed.

Lemma parse_from_same n : ∀ argv urls o1 o2,
  length argv ≤ n → same_capture o1 o2 →
  same_parse (CLI.parse_from Number argv urls o1)
             (CLI.parse_from Number argv urls o2).
Proof.
  induction n as [|n IH]; intros argv urls o1 o2 Hlen Hsame.
  - destruct argv; [done|simpl in Hlen; lia].
  - destruct argv as [|arg rest]; [done|]. simpl in Hlen.
    cbn [CLI.parse_from].
    destruct (negb (startsWith arg "-")); [apply IH; [lia|done]|].
    pose proof (apply_flag_same (CLI.flag_of arg) (CLI.inlineValue_of arg)
                  rest o1 o2 Hsame) as Hflag.
    destruct (CLI.apply_flag Number _ _ rest o1) as [e1|[o1' t1]],
             (CLI.apply_flag Number _ _ rest o2) as [e2|[o2' t2]]; try done.
    destruct Hflag as [<- Hsame']. destruct t1.
    + destruct rest as [|v rest']; [done|]. simpl in Hlen.
      apply IH; [lia|done].
    + apply IH; [lia|done].
Qed.

Lemma main_same_parse argv1 argv2 disk :
  same_parse (CLI.parseArgs Number argv1) (CLI.parseArgs Number argv2) →
  main Number W sh argv1 disk = main Number W sh argv2 disk.
Proof.
  unfold main.
  destruct (CLI.parseArgs Number argv1) as [e1|[urls1 o1]],
           (CLI.parseArgs Number argv2) as [e2|[urls2 o2]]; try done.
  { by intros ->. }
  intros [<- (Hw & Hh & Hc & Ho)]. destruct urls1 as [|url urls]; [done|].
  rewrite (captureWithHar_ext W (capture_options o1) (capture_options o2)).
  - rewrite Hh, Hc. unfold output_path. rewrite Ho. reflexivity.
  - simpl. by rewrite Hw.
  - simpl. by rewrite Hh.
Qed.

(** X11.  [--user-data-dir] and, with a number, [--max-pages] change
    nothing of what [main] does: exit status, calls, files and console
    are those of the command line without them. *)
Theorem profile_and_page_bound_are_ignored pre post urls o dir v n disk :
  CLI.parseArgs Number pre = inr (urls, o) →
  Number v = Some n →
  main Number W sh (pre ++ ("--user-data-dir=" +:+ dir) :: post) disk
  = main Number W sh (pre ++ post) disk
  ∧ main Number W sh (pre ++ ("--max-pages=" +:+ v) :: post) disk
    = main Number W sh (pre ++ post) disk.
Proof.
  intros Hpre Hv. unfold CLI.parseArgs in Hpre.
  split; apply main_same_parse; unfold CLI.parseArgs;
    rewrite !(parse_from_app _ _ _ _ _ _ _ Hpre).
  - cbv [String.append]. cbn [CLI.parse_from]. simpl.
    unfold CLI.apply_flag, CLI.flag_of, CLI.inlineValue_of. simpl.
    apply (parse_from_same (length post)); [done|]. by repeat split.
  - cbv [String.append]. cbn [CLI.parse_from]. simpl.
    unfold CLI.apply_flag, CLI.flag_of, CLI.inlineValue_of. simpl.
    rewrite Hv.
    apply (parse_from_same (length post)); [done|]. by repeat split.
Qed.
End MainMore.

(** A returned session has closed its browser and names its method. *)
Lemma captureWithHar_returned W disk urls options :
  wp (captureWithHar W urls options) (boot disk) (λ o σ,
    ∀ r, o = Return r →
      browser_running σ = false
      ∧ method r = "playwright-har"
      ∧ requestCount r = length (exchange_records (har r))
      ∧ JSON_parse W (recorded W (destination W)) = Some (har r)
      ∧ ∃ n, crawlResult r = Some {| pagesCrawled := n; openApiSource := None |}).
Proof.
  wp_run W; intros ? [= <-]; cbn [har requestCount method crawlResult browser_running].
  unfold destination, capture_time, exchange_records.
  repeat (match goal with
          | H : HAR.log _ = _ |- _ => rewrite H
          | H : HAR.entries _ = _ |- _ => rewrite H
          end; cbn [default from_option id]).
  repeat split; eauto.
Qed.

(** A returned session counts the targets that did not fail, and has
    navigated to each target once. *)
Lemma captureWithHar_page_count W disk urls options :
  wp (captureWithHar W urls options) (boot disk) (λ o σ,
    ∀ r, o = Return r →
      ∃ n, crawlResult r = Some {| pagesCrawled := n; openApiSource := None |}
           ∧ n + failed_targets (calls σ) = length urls
           ∧ gotos (calls σ) = urls).
Proof.
  wp_run W; intros ? [= <-]; cbn [crawlResult calls].
  eexists. split; [reflexivity|]. log_project.
  match goal with H : gotos _ = urls |- _ => rewrite H end.
  rewrite app_nil_r. split; [lia|done].
Qed.

Section MainSuccess.
Context (Number : string → option Z) (W : World) (sh : Shell).

(** What [output_path] leaves of the host: at most one clock reading is
    added to the log, and the path is the resolved [--output], or the
    resolved default name built from that reading. *)
Lemma output_path_host o σ :
  browser_running (output_path W sh o σ).2 = browser_running σ
  ∧ failed_targets (calls (output_path W sh o σ).2) = failed_targets (calls σ)
  ∧ gotos (calls (output_path W sh o σ).2) = gotos (calls σ)
  ∧ match CLI.output o with
    | Some p => (output_path W sh o σ).1 = resolve sh p
    | None =>
        ∃ t, last (calls (output_path W sh o σ).2) = Some (Now t)
             ∧ (output_path W sh o σ).1
               = resolve sh ("./unbrowse-capture-" +:+ pretty t +:+ ".har")
    end.
Proof.
  unfold output_path. destruct (CLI.output o) as [p|]; cbn [fst snd calls browser_running].
  - done.
  - rewrite failed_targets_app, gotos_app. cbn [failed_targets failed_load gotos omap
      goto_target]. rewrite Nat.add_0_r, app_nil_r.
    split; [done|]. split; [done|]. split; [done|].
    eexists. split; [apply last_snoc|reflexivity].
Qed.

(** X12.  When [main] exits with status 0, the arguments parsed to a
    target list and options; the browser is closed; every target was
    navigated to once, in order; the trace the recorder flushed is saved,
    serialised, at the output path, which is the resolved [--output] or,
    without one, the resolved default name built from the last clock
    reading; and the console shows, in this order, the banner with the
    targets and the two modes, the number of exchange records of that
    trace, the number of targets less those whose navigation or pause
    rejected, the number of cookie names the merge of that trace keeps,
    and the output path. *)
Theorem exit_zero_means_saved argv disk :
  status (main Number W sh argv disk) = 0 →
  ∃ urls o doc path,
    CLI.parseArgs Number argv = inr (urls, o)
    ∧ JSON_parse W (recorded W (destination W)) = Some doc
    ∧ files (host (main Number W sh argv disk)) !! path
      = Some (JSON_stringify sh doc)
    ∧ match CLI.output o with
      | Some p => path = resolve sh p
      | None =>
          ∃ t, last (calls (host (main Number W sh argv disk))) = Some (Now t)
               ∧ path = resolve sh ("./unbrowse-capture-" +:+ pretty t +:+ ".har")
      end
    ∧ browser_running (host (main Number W sh argv disk)) = false
    ∧ gotos (calls (host (main Number W sh argv disk))) = urls
    ∧ goto_failures (calls (host (main Number W sh argv disk)))
      + pause_failures (calls (host (main Number W sh argv disk)))
      ≤ length urls
    ∧ console (main Number W sh argv disk)
      = [ Capturing urls (default false (CLI.headless o))
            (negb (bool_decide (CLI.crawl o = Some false)));
          Captured (length (exchange_records doc)) "playwright-har";
          CrawlerVisited
            (length urls
             - goto_failures (calls (host (main Number W sh argv disk)))
             - pause_failures (calls (host (main Number W sh argv disk))));
          CookiesCaptured (size (merge_trace ∅ doc));
          HarSaved path ].
Proof.
  unfold main.
  destruct (CLI.parseArgs Number argv) as [msg|[[|url urls] o]]; [done|done|].
  destruct (captureWithHar W (url :: urls) (capture_options o) (boot disk))
    as [[r|e] σ] eqn:Hrun; [|done].
  pose proof (wp_session _ _ _ _ _
                (captureWithHar_returned W disk (url :: urls) (capture_options o))
                _ _ Hrun r eq_refl)
    as (Hclosed & Hmethod & Hcount & Hparse & _).
  pose proof (wp_session _ _ _ _ _
                (captureWithHar_page_count W disk (url :: urls) (capture_options o))
                _ _ Hrun r eq_refl)
    as (pages & Hcrawl & Hpages & Hgotos).
  pose proof (wp_session _ _ _ _ _
                (captureWithHar_outcome W disk (url :: urls) (capture_options o))
                _ _ Hrun) as (_ & _ & _ & _ & Hcookies & _).
  pose proof (output_path_host o σ) as (Hrunning & Hfailed & Hvisited & Hwhere).
  destruct (output_path W sh o σ) as [path σ'] eqn:Hpath.
  cbn [fst snd] in Hrunning, Hfailed, Hvisited, Hwhere.
  destruct (negb (mkdirSync_ok sh (dirname sh path))); [done|].
  destruct (negb (writeFileSync_ok sh path)); [done|].
  intros _. exists (url :: urls), o, (har r), path.
  cbn [host console files calls browser_running set_files].
  rewrite <- Hfailed, failed_targets_split in Hpages.
  split; [done|]. split; [done|]. split; [apply lookup_insert_eq|].
  split; [exact Hwhere|]. split; [congruence|]. split; [congruence|].
  split; [lia|].
  rewrite Hcount, Hmethod, Hcrawl, Hcookies. cbn [crawl_lines pagesCrawled openApiSource app].
  do 3 f_equal. f_equal. lia.
Qed.
End MainSuccess.

(** ** Slot times *)

Lemma pad2_two_digits n : (0 ≤ n < 100)%Z → String.length (OpenTable.pad2 n) = 2.
Proof.
  intros Hn.
  assert (Hall : Forall (λ k, String.length (OpenTable.pad2 k) = 2) (seqZ 0 100)).
  { apply (bool_decide_unpack _). vm_compute. exact I. }
  rewrite Forall_forall in Hall. apply Hall, elem_of_seqZ. lia.
Qed.

(** X13.  If base time plus offset is no more than a day away from the
    day, the slot time is a time of day: minutes within the day, congruent
    to the sum, printed as two digits, a colon and two digits. *)
Theorem slot_time_within_a_day base off :
  (-1440 ≤ base + OpenTable.offset_of off < 2880)%Z →
  let f := OpenTable.finalMinutes base off in
  (0 ≤ f < 1440)%Z
  ∧ (f mod 1440 = (base + OpenTable.offset_of off) mod 1440)%Z
  ∧ (0 ≤ OpenTable.h f < 24)%Z
  ∧ (0 ≤ OpenTable.m f < 60)%Z
  ∧ (60 * OpenTable.h f + OpenTable.m f = f)%Z
  ∧ String.length (OpenTable.timeStr f) = 5.
Proof.
  intros Hrange f.
  assert (Hf : (0 ≤ f < 1440)%Z
               ∧ (f mod 1440 = (base + OpenTable.offset_of off) mod 1440)%Z).
  { subst f. unfold OpenTable.finalMinutes.
    set (s := (base + OpenTable.offset_of off)%Z) in *.
    destruct (Z.ltb_spec s 0).
    - destruct (Z.leb_spec 1440 (s + 1440)); [lia|].
      split; [lia|]. rewrite <- (Z_mod_plus_full s 1 1440). f_equal; lia.
    - destruct (Z.leb_spec 1440 s).
      + split; [lia|]. rewrite <- (Z_mod_plus_full s (-1) 1440). f_equal; lia.
      + split; [lia|reflexivity]. }
  destruct Hf as [Hf Hmod].
  assert (Hh : (0 ≤ OpenTable.h f < 24)%Z).
  { unfold OpenTable.h. split; [apply Z.div_pos; lia|].
    apply Z.div_lt_upper_bound; lia. }
  assert (Hrem : OpenTable.m f = (f mod 60)%Z).
  { unfold OpenTable.m. apply Z.rem_mod_nonneg; lia. }
  assert (Hm : (0 ≤ OpenTable.m f < 60)%Z).
  { rewrite Hrem. apply Z.mod_pos_bound. lia. }
  repeat split; try lia.
  - rewrite Hrem. unfold OpenTable.h. symmetry. apply Z_div_mod_eq_full.
  - unfold OpenTable.timeStr. rewrite !string_length_app.
    rewrite !pad2_two_digits by lia. reflexivity.
Qed.

(** X14.  The adjustment is made once, not to a remainder: when the sum is more
    than a day before the day, or two days or more after it, the result is
    not a time of day and neither is its hour. *)
Theorem slot_time_wraps_once base off :
  ¬ (-1440 ≤ base + OpenTable.offset_of off < 2880)%Z →
  ¬ (0 ≤ OpenTable.finalMinutes base off < 1440)%Z
  ∧ ¬ (0 ≤ OpenTable.h (OpenTable.finalMinutes base off) < 24)%Z.
Proof.
  unfold OpenTable.finalMinutes.
  set (s := (base + OpenTable.offset_of off)%Z). intros Hs.
  destruct (Z.ltb_spec s 0).
  - destruct (Z.leb_spec 1440 (s + 1440)); [lia|].
    split; [lia|]. unfold OpenTable.h.
    assert ((s + 1440) / 60 < 0)%Z by (apply Z.div_lt_upper_bound; lia). lia.
  - destruct (Z.leb_spec 1440 s); [|lia].
    split; [lia|]. unfold OpenTable.h.
    assert (24 ≤ (s - 1440) / 60)%Z by (apply Z.div_le_lower_bound; lia). lia.
Qed.

Lemma slot_time_within_a_day_witness :
  OpenTable.finalMinutes 1380 (Some 90%Z) = 30%Z
  ∧ OpenTable.timeStr 30 = "00:30"
  ∧ String.length (OpenTable.timeStr (OpenTable.finalMinutes 1380 (Some 90%Z))) = 5.
Proof.
  split; [reflexivity|]. split; [vm_compute; reflexivity|].
  apply (slot_time_within_a_day 1380 (Some 90%Z)). simpl. lia.
Defined.

Lemma slot_time_wraps_once_witness :
  OpenTable.finalMinutes 60 (Some (-1560)%Z) = (-60)%Z
  ∧ OpenTable.timeStr (-60) = "-1:00"
  ∧ ¬ (0 ≤ OpenTable.finalMinutes 60 (Some (-1560)%Z) < 1440)%Z.
Proof.
  split; [reflexivity|]. split; [vm_compute; reflexivity|].
  apply (slot_time_wraps_once 60 (Some (-1560)%Z)). simpl. lia.
Defined.


(** ** Venue addresses *)

Lemma split_on_cons c s : ∃ first others, split_on c s = first :: others.
Proof. induction s as [|a s (f & o & IH)]; simpl; [eauto|]. destruct (Ascii.eqb a c); rewrite ?IH; eauto. Qed.

Lemma split_on_plain c s : indexOf c s = None → split_on c s = [s].
Proof.
  induction s as [|a s IH]; simpl; [done|].
  destruct (Ascii.eqb a c); [done|].
  destruct (indexOf c s); [done|]. intros _. by rewrite IH.
Qed.

Lemma split_on_app c s t :
  indexOf c s = None → split_on c (s +:+ String c t) = s :: split_on c t.
Proof.
  induction s as [|a s IH]; simpl.
  - intros _. by rewrite Ascii.eqb_refl.
  - destruct (Ascii.eqb a c); [done|].
    destruct (indexOf c s); [done|]. intros _. by rewrite IH.
Qed.

Lemma split_on_trailing c s :
  split_on c (s +:+ String c EmptyString) = split_on c s ++ [EmptyString].
Proof.
  induction s as [|a s IH]; simpl.
  - by rewrite Ascii.eqb_refl.
  - destruct (Ascii.eqb a c); rewrite IH; [done|].
    destruct (split_on_cons c s) as (f & o & ->). done.
Qed.

Lemma nonempty_parts_cons p parts :
  p ≠ "" → nonempty_parts (p :: parts) = p :: nonempty_parts parts.
Proof.
  intros Hp. unfold nonempty_parts. simpl.
  by apply String.eqb_neq in Hp as ->.
Qed.

Lemma nonempty_parts_empty parts :
  nonempty_parts ("" :: parts) = nonempty_parts parts.
Proof. reflexivity. Qed.

Section ResyFacts.
Context (URL_pathname : string → option string).

(** X15.  The two address formats of a venue give the same location and
    slug. *)
Theorem standard_and_venues_paths_agree u1 u2 loc slug :
  indexOf "/" loc = None → indexOf "/" slug = None →
  loc ≠ "" → slug ≠ "" → slug ≠ "venues" →
  URL_pathname u1 = Some ("/cities/" +:+ loc +:+ "/" +:+ slug) →
  URL_pathname u2 = Some ("/cities/" +:+ loc +:+ "/venues/" +:+ slug) →
  Resy.parseResyUrl URL_pathname u1
  = Some {| Resy.location := Some loc; Resy.slug := Some slug |}
  ∧ Resy.parseResyUrl URL_pathname u2
    = Some {| Resy.location := Some loc; Resy.slug := Some slug |}.
Proof.
  intros Hloc Hslug Hl Hs Hv H1 H2. unfold Resy.parseResyUrl.
  rewrite H1, H2. cbn [mbind option_bind].
  change ("/cities/" +:+ loc +:+ "/" +:+ slug)
    with ("" +:+ String "/" ("cities" +:+ String "/" (loc +:+ String "/" slug))).
  change ("/cities/" +:+ loc +:+ "/venues/" +:+ slug)
    with ("" +:+ String "/" ("cities" +:+ String "/" (loc +:+ String "/"
            ("venues" +:+ String "/" slug)))).
  rewrite !split_on_app by done. rewrite (split_on_plain _ slug) by done.
  rewrite !nonempty_parts_empty, !(nonempty_parts_cons "cities"),
    !(nonempty_parts_cons loc), !(nonempty_parts_cons "venues"),
    !(nonempty_parts_cons slug) by done.
  change (nonempty_parts []) with (@nil string). cbn [lookup list_lookup].
  rewrite !bool_decide_eq_true_2 by done.
  rewrite (bool_decide_eq_false_2 (Some slug = Some "venues")) by congruence.
  done.
Qed.

(** X16.  A slash at the end of the path changes nothing. *)
Theorem trailing_slash_is_ignored u1 u2 p :
  URL_pathname u1 = Some p →
  URL_pathname u2 = Some (p +:+ "/") →
  Resy.parseResyUrl URL_pathname u2 = Resy.parseResyUrl URL_pathname u1.
Proof.
  intros H1 H2. unfold Resy.parseResyUrl. rewrite H1, H2. cbn [mbind option_bind].
  rewrite split_on_trailing. unfold nonempty_parts.
  rewrite List.filter_app. simpl. by rewrite app_nil_r.
Qed.

(** X17.  In the standard format a venue whose slug is [venues] loses its
    slug. *)
Theorem venue_named_venues_has_no_slug u loc :
  indexOf "/" loc = None → loc ≠ "" →
  URL_pathname u = Some ("/cities/" +:+ loc +:+ "/venues") →
  Resy.parseResyUrl URL_pathname u
  = Some {| Resy.location := Some loc; Resy.slug := None |}.
Proof.
  intros Hloc Hl Hu. unfold Resy.parseResyUrl. rewrite Hu. cbn [mbind option_bind].
  change ("/cities/" +:+ loc +:+ "/venues")
    with ("" +:+ String "/" ("cities" +:+ String "/" (loc +:+ String "/" "venues"))).
  rewrite !split_on_app by done.
  change (split_on "/" "venues") with ["venues"].
  rewrite !nonempty_parts_empty, !(nonempty_parts_cons "cities"),
    !(nonempty_parts_cons loc), !(nonempty_parts_cons "venues") by done.
  change (nonempty_parts []) with (@nil string). cbn [lookup list_lookup].
  rewrite !bool_decide_eq_true_2 by done. done.
Qed.
End ResyFacts.

Lemma before_semicolon_plain c : indexOf ";" (before_semicolon c) = None.
Proof.
  unfold before_semicolon. induction c as [|a c IH]; simpl; [done|].
  destruct (Ascii.eqb a ";") eqn:Ha; [done|].
  destruct (split_on ";" c) as [|first others]; simpl; rewrite Ha; [done|].
  by rewrite IH.
Qed.

Lemma split_on_join first rest :
  split_on ";" (join "; " (before_semicolon <$> first :: rest))
  = before_semicolon first :: ((λ c, " " +:+ before_semicolon c) <$> rest).
Proof.
  revert first. induction rest as [|c rest IH]; intros first.
  - simpl. apply split_on_plain, before_semicolon_plain.
  - change (join "; " (before_semicolon <$> first :: c :: rest))
      with (before_semicolon first
            +:+ String ";" (String " " (join "; " (before_semicolon <$> c :: rest)))).
    rewrite split_on_app by apply before_semicolon_plain.
    f_equal.
    change (split_on ";" (String " " ?s))
      with (match split_on ";" s with
            | f :: o => String " " f :: o
            | [] => [String " " EmptyString]
            end).
    by rewrite IH.
Qed.

(** X18.  Splitting the Cookie header at [;] gives back, for every
    [Set-Cookie] line in order, the text before its first [;] (after a
    space from the second on): attributes never reach the header, and there
    is one piece per line. *)
Theorem cookie_header_has_one_pair_per_line first rest :
  split_on ";" (cookie_header (first :: rest))
  = before_semicolon first :: ((λ c, " " +:+ before_semicolon c) <$> rest)
  ∧ length (split_on ";" (cookie_header (first :: rest))) = length (first :: rest)
  ∧ cookie_header [] = "".
Proof.
  assert (Hsplit : split_on ";" (cookie_header (first :: rest))
                   = before_semicolon first
                     :: ((λ c, " " +:+ before_semicolon c) <$> rest))
    by apply split_on_join.
  split; [exact Hsplit|]. split; [|reflexivity].
  rewrite Hsplit. simpl. by rewrite length_fmap.
Qed.

(** ** The further properties at work *)

Lemma session_touches_only_its_temporary_files_witness :
  files (session calm {["notes.txt" := "keep"]} two_targets sample_options).2
  !! "notes.txt" = Some "keep".
Proof.
  etrans; [apply session_touches_only_its_temporary_files|].
  - discriminate.
  - vm_compute. discriminate.
  - vm_compute. discriminate.
  - vm_compute. reflexivity.
Defined.

Lemma failed_targets_are_reported_witness :
  ∃ r σ, session second_unreachable ∅ two_targets sample_options = (Return r, σ)
         ∧ announced (calls σ) = two_targets
         ∧ reported (calls σ) = ["https://unreachable.invalid"].
Proof.
  exists {| har := sample_trace; requestCount := 2; method := "playwright-har";
            crawlResult := Some {| pagesCrawled := 1; openApiSource := None |};
            cookies := <["theme" := "dark"]> (<["sid" := "new"]> ∅) |}.
  exists (session second_unreachable ∅ two_targets sample_options).2.
  assert (Hrun : session second_unreachable ∅ two_targets sample_options
                 = (Return {| har := sample_trace; requestCount := 2;
                              method := "playwright-har";
                              crawlResult := Some {| pagesCrawled := 1;
                                                     openApiSource := None |};
                              cookies := <["theme" := "dark"]> (<["sid" := "new"]> ∅) |},
                    (session second_unreachable ∅ two_targets sample_options).2))
    by (vm_compute; reflexivity).
  split; [exact Hrun|].
  split; [exact (proj1 (failed_targets_are_reported _ _ _ _ _ _ Hrun))|].
  vm_compute. reflexivity.
Defined.

Lemma pause_after_each_loaded_page_witness :
  ∃ r σ, session second_unreachable ∅ two_targets patient_options = (Return r, σ)
         ∧ pauses (calls σ) = [1000%Z].
Proof.
  exists {| har := sample_trace; requestCount := 2; method := "playwright-har";
            crawlResult := Some {| pagesCrawled := 1; openApiSource := None |};
            cookies := <["theme" := "dark"]> (<["sid" := "new"]> ∅) |}.
  exists (session second_unreachable ∅ two_targets patient_options).2.
  assert (Hrun : session second_unreachable ∅ two_targets patient_options
                 = (Return {| har := sample_trace; requestCount := 2;
                              method := "playwright-har";
                              crawlResult := Some {| pagesCrawled := 1;
                                                     openApiSource := None |};
                              cookies := <["theme" := "dark"]> (<["sid" := "new"]> ∅) |},
                    (session second_unreachable ∅ two_targets patient_options).2))
    by (vm_compute; reflexivity).
  split; [exact Hrun|].
  rewrite (pause_after_each_loaded_page _ _ _ _ _ _ 1000%Z Hrun eq_refl).
  vm_compute. reflexivity.
Defined.

(** In [sample_trace] the first record sends [sid=old] and is answered
    [sid=new]: the aggregate holds [new]. *)
Lemma named_cookies_keep_their_last_value_witness :
  ∃ r σ, session calm ∅ two_targets sample_options = (Return r, σ)
         ∧ cookie_sequence (har r)
           = [cookie "sid" "old"; cookie "sid" "new"; cookie "theme" "dark"]
         ∧ cookies r !! "sid" = Some "new"
         ∧ merge_trace (cookies r) (har r) = cookies r.
Proof.
  exists {| har := sample_trace; requestCount := 2; method := "playwright-har";
            crawlResult := Some {| pagesCrawled := 2; openApiSource := None |};
            cookies := <["theme" := "dark"]> (<["sid" := "new"]> ∅) |}.
  exists (session calm ∅ two_targets sample_options).2.
  assert (Hrun : session calm ∅ two_targets sample_options
                 = (Return {| har := sample_trace; requestCount := 2;
                              method := "playwright-har";
                              crawlResult := Some {| pagesCrawled := 2;
                                                     openApiSource := None |};
                              cookies := <["theme" := "dark"]> (<["sid" := "new"]> ∅) |},
                    (session calm ∅ two_targets sample_options).2))
    by (vm_compute; reflexivity).
  destruct (named_cookies_keep_their_last_value _ _ _ _ _ _ Hrun)
    as (_ & Hlast & _ & _ & Hagain & _).
  split; [exact Hrun|]. split; [reflexivity|]. split; [|exact Hagain].
  apply (Hlast [cookie "sid" "old"] (cookie "sid" "new") [cookie "theme" "dark"]).
  - reflexivity.
  - intros Hin. apply list_elem_of_singleton in Hin. discriminate Hin.
  - discriminate.
Defined.

Lemma urls_may_follow_options_witness :
  CLI.parseArgs sample_Number
    (["--headless"; "-w"; "2000"] ++ ["https://example.com"; "https://example.org"])
  = inr ([] ++ ["https://example.com"; "https://example.org"],
         CLI.set_waitMs 2000%Z (CLI.set_headless true CLI.defaults)).
Proof.
  apply urls_may_follow_options.
  - vm_compute. reflexivity.
  - repeat constructor.
Defined.

Lemma inline_value_is_separate_value_witness :
  CLI.parseArgs sample_Number
    (["https://example.com"] ++ ("--output" +:+ "=" +:+ "out.har") :: ["--headless"])
  = CLI.parseArgs sample_Number
      (["https://example.com"] ++ "--output" :: "out.har" :: ["--headless"]).
Proof.
  apply (inline_value_is_separate_value sample_Number _ _ _ _
           ["https://example.com"] CLI.defaults).
  - vm_compute. reflexivity.
  - apply (bool_decide_unpack _). vm_compute. exact I.
  - discriminate.
  - reflexivity.
Defined.

Lemma value_must_follow_witness :
  CLI.parseArgs sample_Number (["https://example.com"] ++ "--wait" :: ["-5"])
  = inl "Missing value for option".
Proof.
  apply (value_must_follow sample_Number _ _ _ ["https://example.com"] CLI.defaults).
  - vm_compute. reflexivity.
  - apply (bool_decide_unpack _). vm_compute. exact I.
  - right. exists "-5", []. split; [reflexivity|]. right. reflexivity.
Defined.

Lemma unknown_option_rejected_witness :
  CLI.parseArgs sample_Number (["https://example.com"] ++ "--verbose=1" :: [])
  = inl ("Unknown option: " +:+ CLI.flag_of "--verbose=1").
Proof.
  apply (unknown_option_rejected sample_Number _ _ _ ["https://example.com"]
           CLI.defaults).
  - vm_compute. reflexivity.
  - reflexivity.
  - apply (bool_decide_unpack _). vm_compute. exact I.
Defined.

Lemma toggle_ignores_inline_value_witness :
  CLI.parseArgs sample_Number
    (["https://example.com"] ++ ("--headless" +:+ "=" +:+ "false") :: [])
  = CLI.parseArgs sample_Number (["https://example.com"] ++ "--headless" :: []).
Proof.
  apply (toggle_ignores_inline_value sample_Number _ _ _ _
           ["https://example.com"] CLI.defaults).
  - vm_compute. reflexivity.
  - apply (bool_decide_unpack _). vm_compute. exact I.
Defined.

Lemma parsed_arguments_are_well_formed_witness :
  ["https://example.com"]
    `sublist_of` ["--no-crawl"; "https://example.com"; "-o"; "out.har"]
  ∧ Forall positional ["https://example.com"]
  ∧ is_Some (CLI.headless (CLI.set_output "out.har" (CLI.set_crawl false
                             (CLI.defaults (num := Z)))))
  ∧ is_Some (CLI.crawl (CLI.set_output "out.har" (CLI.set_crawl false
                          (CLI.defaults (num := Z))))).
Proof.
  apply (parsed_arguments_are_well_formed sample_Number).
  vm_compute. reflexivity.
Defined.

Lemma options_alone_start_no_capture_witness :
  status (main sample_Number calm sample_shell ["--headless"; "--no-crawl"] ∅) = 1
  ∧ host (main sample_Number calm sample_shell ["--headless"; "--no-crawl"] ∅)
    = boot ∅.
Proof.
  apply options_alone_start_no_capture.
  repeat (constructor; [reflexivity|]). constructor.
Defined.

Lemma profile_and_page_bound_are_ignored_witness :
  main sample_Number calm sample_shell
    (["https://example.com"] ++ ("--user-data-dir=" +:+ "/tmp/profile") :: ["--headless"]) ∅
  = main sample_Number calm sample_shell (["https://example.com"] ++ ["--headless"]) ∅
  ∧ main sample_Number calm sample_shell
      (["https://example.com"] ++ ("--max-pages=" +:+ "30") :: ["--headless"]) ∅
    = main sample_Number calm sample_shell (["https://example.com"] ++ ["--headless"]) ∅.
Proof.
  apply (profile_and_page_bound_are_ignored sample_Number calm sample_shell
           ["https://example.com"] ["--headless"] ["https://example.com"]
           CLI.defaults "/tmp/profile" "30" 30%Z).
  - vm_compute. reflexivity.
  - vm_compute. reflexivity.
Defined.

Lemma exit_zero_means_saved_witness :
  ∃ doc,
    JSON_parse calm (recorded calm (destination calm)) = Some doc
    ∧ files (host (main sample_Number calm sample_shell
                     ["https://example.com"; "-o"; "out.har"] ∅)) !! "/work/out.har"
      = Some (JSON_stringify sample_shell doc)
    ∧ console (main sample_Number calm sample_shell
                 ["https://example.com"; "-o"; "out.har"] ∅)
      = [ Capturing ["https://example.com"] false true;
          Captured (length (exchange_records doc)) "playwright-har";
          CrawlerVisited 1;
          CookiesCaptured (size (merge_trace ∅ doc));
          HarSaved "/work/out.har" ].
Proof.
  destruct (exit_zero_means_saved sample_Number calm sample_shell
              ["https://example.com"; "-o"; "out.har"] ∅)
    as (urls & o & doc & path & Hargs & Hdoc & Hfile & Hwhere & _ & _ & _ & Hconsole).
  - vm_compute. reflexivity.
  - assert (Hparsed : CLI.parseArgs sample_Number ["https://example.com"; "-o"; "out.har"]
                      = inr (["https://example.com"],
                             CLI.set_output "out.har" CLI.defaults))
      by (vm_compute; reflexivity).
    rewrite Hparsed in Hargs. injection Hargs as <- <-.
    cbn [CLI.output CLI.set_output] in Hwhere. subst path.
    assert (Hnone : goto_failures
                      (calls (host (main sample_Number calm sample_shell
                                      ["https://example.com"; "-o"; "out.har"] ∅)))
                    = 0
                    ∧ pause_failures
                        (calls (host (main sample_Number calm sample_shell
                                        ["https://example.com"; "-o"; "out.har"] ∅)))
                      = 0)
      by (split; vm_compute; reflexivity).
    destruct Hnone as [Hgoto Hpause]. rewrite Hgoto, Hpause in Hconsole.
    exists doc. split; [exact Hdoc|]. split; [exact Hfile|].
    rewrite Hconsole. reflexivity.
Defined.

Lemma standard_and_venues_paths_agree_witness :
  Resy.parseResyUrl sample_pathname
    "https://resy.com/cities/san-francisco-ca/liholiho-yacht-club"
  = Some {| Resy.location := Some "san-francisco-ca";
            Resy.slug := Some "liholiho-yacht-club" |}
  ∧ Resy.parseResyUrl sample_pathname
      "https://resy.com/cities/san-francisco-ca/venues/liholiho-yacht-club"
    = Some {| Resy.location := Some "san-francisco-ca";
              Resy.slug := Some "liholiho-yacht-club" |}.
Proof.
  apply standard_and_venues_paths_agree;
    try discriminate; vm_compute; reflexivity.
Defined.

Lemma trailing_slash_is_ignored_witness :
  Resy.parseResyUrl sample_pathname "https://resy.com/venues/penny-roma/"
  = Resy.parseResyUrl sample_pathname "https://resy.com/venues/penny-roma".
Proof.
  apply (trailing_slash_is_ignored sample_pathname _ _ "/venues/penny-roma");
    vm_compute; reflexivity.
Defined.

Lemma venue_named_venues_has_no_slug_witness :
  Resy.parseResyUrl sample_pathname "https://resy.com/cities/new-york-ny/venues"
  = Some {| Resy.location := Some "new-york-ny"; Resy.slug := None |}.
Proof.
  apply venue_named_venues_has_no_slug;
    try discriminate; vm_compute; reflexivity.
Defined.

Lemma cookie_header_has_one_pair_per_line_witness :
  split_on ";" (cookie_header ["sid=1; Path=/; HttpOnly"; "lang=en; Secure"])
  = ["sid=1"; " lang=en"].
Proof.
  exact (proj1 (cookie_header_has_one_pair_per_line
                  "sid=1; Path=/; HttpOnly" ["lang=en; Secure"])).
Defined.
